(** * MWALIMU HOMES: invoice lifecycle and payment matching

    A shallow embedding of [invoiceGeneration.ts]
    ([generateMonthlyInvoices], [finalizePendingInvoices]) and of
    [paymentMatching.ts] (the listing from line 344 of [currency.ts]:
    [normalizePhoneNumber], [calculateSimilarity], [getEditDistance],
    [autoMatchPaymentToTenant], [parseCSVPayments],
    [processPaymentUpload]) and of [parseKES] (lines 59-69 of
    [currency.ts]), over the tables of
    [schema.ts], together with the parts of the
    JavaScript run time these functions call: [Date], [parseFloat],
    [Number.prototype.toString], the [String.prototype] helpers and the
    [nanoid] package.

    The file gives all definitions first and the lemmas about them
    afterwards. *)

From Stdlib Require Import ZArith List Bool Lia String Ascii.
From Stdlib Require Import QArith Qround.
From Stdlib Require Import SpecFloat.
From Stdlib Require Import DecimalString.
Import ListNotations.

Local Open Scope string_scope.
Local Open Scope Z_scope.

(* ================================================================== *)
(** * JavaScript [Date], as far as the invoice engine uses it          *)
(* ================================================================== *)

(** ECMAScript 21.4.1 defines dates through day numbers counted from
    1970-01-01.  Every [Date] the generator builds is a local midnight
    ([new Date(y, m, d)]), and of [now] only the year and month are read,
    so a [Date] is modelled by its local day number [Day(t)].  Time zone
    offsets and [TimeClip] are outside the model. *)
Module JSDate.

Definition t := Z.

(** ECMAScript [DaysInYear]. *)
Definition DaysInYear (y : Z) : Z :=
  if negb (y mod 4 =? 0) then 365
  else if negb (y mod 100 =? 0) then 366
  else if negb (y mod 400 =? 0) then 365
  else 366.

(** ECMAScript [DayFromYear]: the day number of January 1st of [y]. *)
Definition DayFromYear (y : Z) : Z :=
  365 * (y - 1970) + (y - 1969) / 4 - (y - 1901) / 100 + (y - 1601) / 400.

(** ECMAScript [YearFromTime]: the largest [y] with [DayFromYear y <= d].
    Computed from the mean Gregorian year length (146097 days in 400
    years) and corrected by at most one year; [YearFromTime_spec] below
    shows that this is the year the standard defines. *)
Definition YearFromTime (d : t) : Z :=
  let y := 1970 + (400 * d) / 146097 in
  if d <? DayFromYear y then y - 1
  else if DayFromYear (y + 1) <=? d then y + 1
  else y.

Definition InLeapYear (d : t) : Z :=
  if DaysInYear (YearFromTime d) =? 366 then 1 else 0.

Definition DayWithinYear (d : t) : Z := d - DayFromYear (YearFromTime d).

(** ECMAScript [MonthFromTime] (0 = January). *)
Definition MonthFromTime (d : t) : Z :=
  let w := DayWithinYear d in
  let l := InLeapYear d in
  if w <? 31 then 0
  else if w <? 59 + l then 1
  else if w <? 90 + l then 2
  else if w <? 120 + l then 3
  else if w <? 151 + l then 4
  else if w <? 181 + l then 5
  else if w <? 212 + l then 6
  else if w <? 243 + l then 7
  else if w <? 273 + l then 8
  else if w <? 304 + l then 9
  else if w <? 334 + l then 10
  else 11.

(** ECMAScript [DateFromTime] (day of the month, from 1). *)
Definition DateFromTime (d : t) : Z :=
  let w := DayWithinYear d in
  let l := InLeapYear d in
  match MonthFromTime d with
  | 0 => w + 1
  | 1 => w - 30
  | 2 => w - 58 - l
  | 3 => w - 89 - l
  | 4 => w - 119 - l
  | 5 => w - 150 - l
  | 6 => w - 180 - l
  | 7 => w - 211 - l
  | 8 => w - 242 - l
  | 9 => w - 272 - l
  | 10 => w - 303 - l
  | _ => w - 333 - l
  end.

(** Day within the year on which month [mn] (0..11) starts. *)
Definition monthStart (leap : Z) (mn : Z) : Z :=
  match mn with
  | 0 => 0
  | 1 => 31
  | 2 => 59 + leap
  | 3 => 90 + leap
  | 4 => 120 + leap
  | 5 => 151 + leap
  | 6 => 181 + leap
  | 7 => 212 + leap
  | 8 => 243 + leap
  | 9 => 273 + leap
  | 10 => 304 + leap
  | _ => 334 + leap
  end.

(** ECMAScript [MakeDay(year, month, date)]: the month is carried into the
    year ([ym], [mn]), the day number of the first of that month is found,
    and [date - 1] is added, whatever its sign or size. *)
Definition MakeDay (year month date : Z) : t :=
  let ym := year + month / 12 in
  let mn := month mod 12 in
  let leap := if DaysInYear ym =? 366 then 1 else 0 in
  DayFromYear ym + monthStart leap mn + date - 1.

(** [new Date(year, month, date)]: a year from 0 to 99 means 1900 + year. *)
Definition newDate (year month date : Z) : t :=
  let yr := if (0 <=? year) && (year <=? 99) then 1900 + year else year in
  MakeDay yr month date.

Definition getFullYear (d : t) : Z := YearFromTime d.
Definition getMonth (d : t) : Z := MonthFromTime d.
Definition getDate (d : t) : Z := DateFromTime d.

(** Number of days of month [mn] (0..11) of year [y]. *)
Definition daysInMonth (y mn : Z) : Z :=
  match mn with
  | 1 => if DaysInYear y =? 366 then 29 else 28
  | 3 | 5 | 8 | 10 => 30
  | _ => 31
  end.

End JSDate.

(* ================================================================== *)
(** * JavaScript strings                                               *)
(* ================================================================== *)

(** A JavaScript string is modelled by a Rocq [string]; the model covers
    text made of ASCII code units: the case mappings act on the letters
    A-Z and a-z and leave every other code unit as it is. *)
Module JSString.

Definition chars (s : string) : list ascii := list_ascii_of_string s.
Definition ofChars (l : list ascii) : string := string_of_list_ascii l.

Definition code (c : ascii) : N := N_of_ascii c.

(** [\d] of a regular expression without the unicode flag: 0-9. *)
Definition isDigit (c : ascii) : bool :=
  ((48 <=? code c) && (code c <=? 57))%N.

(** The ASCII white space and line terminators that [trim] removes. *)
Definition isWhiteSpace (c : ascii) : bool :=
  let n := code c in
  ((n =? 9) || (n =? 10) || (n =? 11) || (n =? 12) || (n =? 13) || (n =? 32))%N.

Definition lowerChar (c : ascii) : ascii :=
  if ((65 <=? code c) && (code c <=? 90))%N
  then ascii_of_N (code c + 32) else c.

Definition upperChar (c : ascii) : ascii :=
  if ((97 <=? code c) && (code c <=? 122))%N
  then ascii_of_N (code c - 32) else c.

Definition toLowerCase (s : string) : string := ofChars (map lowerChar (chars s)).
Definition toUpperCase (s : string) : string := ofChars (map upperChar (chars s)).

Fixpoint dropWhile {A} (f : A -> bool) (l : list A) : list A :=
  match l with
  | [] => []
  | x :: r => if f x then dropWhile f r else l
  end.

Fixpoint takeWhile {A} (f : A -> bool) (l : list A) : list A :=
  match l with
  | [] => []
  | x :: r => if f x then x :: takeWhile f r else []
  end.

Definition trimStartChars (l : list ascii) : list ascii := dropWhile isWhiteSpace l.
Definition trimChars (l : list ascii) : list ascii :=
  rev (dropWhile isWhiteSpace (rev (dropWhile isWhiteSpace l))).

Definition trim (s : string) : string := ofChars (trimChars (chars s)).

(** [s.split(sep)] for a one-character separator: never empty, the empty
    string gives one empty piece. *)
Fixpoint splitChars (sep : ascii) (l : list ascii) : list (list ascii) :=
  match l with
  | [] => [[]]
  | c :: r =>
      if Ascii.eqb c sep then [] :: splitChars sep r
      else match splitChars sep r with
           | [] => [[c]]
           | p :: ps => (c :: p) :: ps
           end
  end.

Definition split (sep : ascii) (s : string) : list string :=
  map ofChars (splitChars sep (chars s)).

Fixpoint isPrefix (p l : list ascii) : bool :=
  match p, l with
  | [], _ => true
  | _ :: _, [] => false
  | a :: p', b :: l' => Ascii.eqb a b && isPrefix p' l'
  end.

Fixpoint includesChars (needle hay : list ascii) : bool :=
  isPrefix needle hay ||
  match hay with
  | [] => false
  | _ :: r => includesChars needle r
  end.

(** [hay.includes(needle)]. *)
Definition includes (hay needle : string) : bool :=
  includesChars (chars needle) (chars hay).

(** [s.slice(-n)]: the last [n] code units, the whole of a shorter [s]. *)
Definition sliceLast (n : nat) (l : list ascii) : list ascii :=
  skipn (List.length l - n) l.

(** [s.padStart(n, "0")]. *)
Definition padStart0 (n : nat) (s : string) : string :=
  ofChars (repeat "0"%char (n - String.length s)) ++ s.

(** Decimal digits of a non-negative integer, as [String(n)] prints it. *)
Definition ofNat (n : N) : string := NilZero.string_of_uint (N.to_uint n).

(** [String(z)] for an integer [z]. *)
Definition ofInteger (z : Z) : string :=
  if (z <? 0)%Z then "-" ++ ofNat (Z.to_N (- z)) else ofNat (Z.to_N z).

(** JavaScript truthiness of a possibly undefined string. *)
Definition truthy (s : option string) : bool :=
  match s with
  | Some s => negb (String.eqb s "")
  | None => false
  end.

(** [arr.findIndex(f)]; [None] stands for -1. *)
Fixpoint findIndex {A} (f : A -> bool) (l : list A) : option nat :=
  match l with
  | [] => None
  | x :: r => if f x then Some O else option_map S (findIndex f r)
  end.

End JSString.

(* ================================================================== *)
(** * JavaScript numbers                                               *)
(* ================================================================== *)

(** A JavaScript [number] is an IEEE 754 binary64 value.  The model is
    the standard library's [spec_float] at precision 53, with its
    correctly rounded operations; [parseFloat] and
    [Number.prototype.toString] follow ECMAScript 19.2.4 and 6.1.6.1.20. *)
Module JSNumber.
Import JSString.

Definition number := spec_float.

Definition prec : Z := 53.
Definition emax : Z := 1024.

Definition NaN : number := S754_nan.
Definition zero : number := S754_zero false.

Definition add (x y : number) : number := SFadd prec emax x y.

(** [x > y]. *)
Definition gt (x y : number) : bool := SFltb y x.

(** The number value for the rational [(-1)^neg * p / q]: the nearest
    binary64 value, ties to even (a correctly rounded division of two
    integers). *)
Definition ofRatio (neg : bool) (p q : positive) : number :=
  SFdiv prec emax (S754_finite neg p 0) (S754_finite false q 0).

(** The number value for [(-1)^neg * n * 10^e]. *)
Definition ofDecimal (neg : bool) (n : Z) (e : Z) : number :=
  match n with
  | Zpos p =>
      if (0 <=? e)%Z then ofRatio neg (p * Z.to_pos (10 ^ e)) 1
      else ofRatio neg p (Z.to_pos (10 ^ (- e)))
  | _ => S754_zero neg
  end.

(** Value of a run of decimal digits. *)
Definition digitsValue (ds : list ascii) : Z :=
  fold_left (fun acc c => 10 * acc + (Z.of_N (code c) - 48)) ds 0.

(** [parseFloat] ECMAScript 19.2.4: leading white space is skipped, then
    the longest prefix that is a [StrDecimalLiteral] is read; without
    such a prefix the result is [NaN]. *)
Definition parseExponent (l : list ascii) : Z :=
  match l with
  | c :: r =>
      if (Ascii.eqb c "e" || Ascii.eqb c "E")%bool then
        let '(neg, r') :=
          match r with
          | s :: r'' =>
              if Ascii.eqb s "-" then (true, r'')
              else if Ascii.eqb s "+" then (false, r'')
              else (false, r)
          | [] => (false, r)
          end in
        match takeWhile isDigit r' with
        | [] => 0
        | ds => if neg then - digitsValue ds else digitsValue ds
        end
      else 0
  | [] => 0
  end.

Definition parseUnsigned (neg : bool) (l : list ascii) : number :=
  if isPrefix (chars "Infinity") l then S754_infinity neg
  else
    let ip := takeWhile isDigit l in
    let r := dropWhile isDigit l in
    match r with
    | c :: r' =>
        if Ascii.eqb c "." then
          let fp := takeWhile isDigit r' in
          let r'' := dropWhile isDigit r' in
          match ip, fp with
          | [], [] => NaN
          | _, _ =>
              ofDecimal neg (digitsValue (ip ++ fp))
                        (parseExponent r'' - Z.of_nat (List.length fp))
          end
        else
          match ip with
          | [] => NaN
          | _ => ofDecimal neg (digitsValue ip) (parseExponent r)
          end
    | [] =>
        match ip with
        | [] => NaN
        | _ => ofDecimal neg (digitsValue ip) 0
        end
    end.

Definition parseFloatChars (l : list ascii) : number :=
  match trimStartChars l with
  | c :: r =>
      if Ascii.eqb c "-" then parseUnsigned true r
      else if Ascii.eqb c "+" then parseUnsigned false r
      else parseUnsigned false (c :: r)
  | [] => NaN
  end.

Definition parseFloat (s : string) : number := parseFloatChars (chars s).

(** [parseFloat(x)] for a possibly undefined [x]: [undefined] is first
    converted to the string "undefined", which is not a number. *)
Definition parseFloatOpt (s : option string) : number :=
  match s with
  | Some s => parseFloat s
  | None => NaN
  end.

(** ** [Number.prototype.toString] (radix 10) *)

(** [v >= 10^j] for the positive rational [v = num / den]. *)
Definition geP10 (num den : Z) (j : Z) : bool :=
  if (0 <=? j)%Z then (den * 10 ^ j <=? num)%Z
  else (den <=? num * 10 ^ (- j))%Z.

(** The [n] with [10^(n-1) <= v < 10^n], searched upwards from [start]. *)
Fixpoint decimalExponentFrom (fuel : nat) (num den : Z) (start : Z) : Z :=
  match fuel with
  | O => start
  | S f => if geP10 num den start
           then decimalExponentFrom f num den (start + 1)
           else start
  end.

Definition decimalExponent (m : positive) (e : Z) (num den : Z) : Z :=
  let b := Z.pos (digits2_pos m) + e in
  decimalExponentFrom 4 num den ((b - 1) * 30102 / 100000 - 1).

(** One attempt with [k] digits: [Some (s, n)] when a [k]-digit integer
    [s] exists such that [s * 10^(n-k)] has the number value [x]; of two
    such integers the one nearer to [v] is taken, the even one on a tie. *)
Definition tryDigits (x : number) (num den n k : Z) : option (Z * Z) :=
  let sc := n - k in
  let lo := if (0 <=? sc)%Z then (num / (den * 10 ^ sc))%Z
            else (num * 10 ^ (- sc) / den)%Z in
  let hi := (lo + 1)%Z in
  (* twice the distance of [v / 10^sc] from [lo], against [1] *)
  let cmp := if (0 <=? sc)%Z
             then (2 * (num - lo * den * 10 ^ sc) ?= den * 10 ^ sc)%Z
             else (2 * (num * 10 ^ (- sc) - lo * den) ?= den)%Z in
  let okLo := match SFcompare (ofDecimal false lo sc) x with
              | Some Eq => (10 ^ (k - 1) <=? lo)%Z | _ => false end in
  let okHi := match SFcompare (ofDecimal false hi sc) x with
              | Some Eq => true | _ => false end in
  let pickLo := Some (lo, n) in
  let pickHi := if (hi =? 10 ^ k)%Z then Some (10 ^ (k - 1), n + 1)%Z
                else Some (hi, n) in
  match okLo, okHi with
  | true, false => pickLo
  | false, true => pickHi
  | false, false => None
  | true, true =>
      match cmp with
      | Lt => pickLo
      | Gt => pickHi
      | Eq => if Z.even lo then pickLo else pickHi
      end
  end.

Fixpoint shortestFrom (fuel : nat) (x : number) (num den n k : Z) : Z * Z * Z :=
  match fuel with
  | O => (0, n, k)
  | S f =>
      match tryDigits x num den n k with
      | Some (s, n') => (s, n', k)
      | None => shortestFrom f x num den n (k + 1)
      end
  end.

Definition zeros (n : Z) : string := ofChars (repeat "0"%char (Z.to_nat n)).

Definition exponentSuffix (n : Z) : string :=
  "e" ++ (if (n - 1 <? 0)%Z then "-" else "+") ++ ofNat (Z.to_N (Z.abs (n - 1))).

(** Steps 6 to 10 of [Number::toString] on the digits [s], their number
    [k] and the decimal exponent [n]. *)
Definition formatDigits (s n k : Z) : string :=
  let ds := ofNat (Z.to_N s) in
  if ((k <=? n) && (n <=? 21))%Z then ds ++ zeros (n - k)
  else if ((0 <? n) && (n <=? 21))%Z then
    substring 0 (Z.to_nat n) ds ++ "." ++ substring (Z.to_nat n) (Z.to_nat (k - n)) ds
  else if ((-6 <? n) && (n <=? 0))%Z then "0." ++ zeros (- n) ++ ds
  else if (k =? 1)%Z then ds ++ exponentSuffix n
  else substring 0 1 ds ++ "." ++ substring 1 (Z.to_nat (k - 1)) ds ++ exponentSuffix n.

Definition toStringPos (m : positive) (e : Z) : string :=
  let num := if (0 <=? e)%Z then (Z.pos m * 2 ^ e)%Z else Z.pos m in
  let den := if (0 <=? e)%Z then 1%Z else (2 ^ (- e))%Z in
  let n := decimalExponent m e num den in
  let '(s, n', k) := shortestFrom 17 (S754_finite false m e) num den n 1 in
  formatDigits s n' k.

Definition toString (x : number) : string :=
  match x with
  | S754_nan => "NaN"
  | S754_zero _ => "0"
  | S754_infinity s => if s then "-Infinity" else "Infinity"
  | S754_finite s m e => (if s then "-" else "") ++ toStringPos m e
  end.

End JSNumber.

(* ================================================================== *)
(** * The [nanoid] package                                             *)
(* ================================================================== *)

(** [nanoid] is an npm dependency ([import { nanoid } from "nanoid"]), not
    code of this repository.  Its default generator draws [size] random
    bytes and maps each to [urlAlphabet[byte & 63]], the 64 URL-safe
    symbols A-Z a-z 0-9 _ and -.  The random bytes are an input of the
    model: [random i] is the i-th byte the generator draws. *)
Module Nanoid.
Import JSString.

Definition urlAlphabet : string :=
  "useandom-26T198340PX75pxJACKVERYMINDBUSHWOLF_GQZbfghjklqvwyzrict".

Definition symbol (byte : N) : ascii :=
  nth (N.to_nat (N.land byte 63)) (chars urlAlphabet) "u"%char.

Definition nanoid (random : nat -> N) (pos size : nat) : string :=
  ofChars (map (fun i => symbol (random i)) (seq pos size)).

End Nanoid.

(* ================================================================== *)
(** * Tables of [drizzle/schema.ts]                                    *)
(* ================================================================== *)

(** Decimal and varchar columns are strings on the JavaScript side; the
    [createdAt]/[updatedAt] columns, which the engines never read, are
    left out.  An [id] of 0 in a row handed to an insert stands for the
    absent autoincrement column. *)
Module Schema.

Inductive LeaseStatus := LeaseActive | LeaseTerminated | LeaseExpired.
Inductive LogStatus := PendingReview | Finalized | Failed.
Inductive InvoiceStatus := Unpaid | PartiallyPaid | FullyPaid | Overdue.
Inductive MatchStatus := Matched | Unmatched | Manual.

Module Lease.
Record t := {
    id : Z; tenantId : Z; unitId : Z;
    monthlyRent : string; serviceCharge : string;
    status : LeaseStatus }.
End Lease.

Module Tenant.
Record t := { id : Z; firstName : string; lastName : string; phone : string }.
End Tenant.

Module GenerationLog.
Record t := {
    id : Z; invoicesGenerated : Z; propertiesAffected : Z;
    status : LogStatus; details : option string }.
End GenerationLog.

Module PendingInvoice.
Record t := {
    id : Z; leaseId : Z; invoiceNumber : string;
    invoiceDate : JSDate.t; dueDate : JSDate.t;
    periodStart : JSDate.t; periodEnd : JSDate.t;
    rentAmount : string; serviceChargeAmount : string;
    utilitiesAmount : string; totalAmount : string;
    notes : option string; generationLogId : Z }.
End PendingInvoice.

Module Invoice.
Record t := {
    id : Z; leaseId : Z; invoiceNumber : string;
    invoiceDate : JSDate.t; dueDate : JSDate.t;
    periodStart : JSDate.t; periodEnd : JSDate.t;
    rentAmount : string; serviceChargeAmount : string;
    utilitiesAmount : string; totalAmount : string;
    paidAmount : string; status : InvoiceStatus;
    notes : option string }.
End Invoice.

End Schema.

(* ================================================================== *)
(** * The store                                                        *)
(* ================================================================== *)

(** The database behind [getDb()]: the five tables the two engines touch
    and the autoincrement counters.  Each awaited query is one statement;
    a statement either takes effect as a whole or throws and changes
    nothing.  Column types are not enforced: a row is kept as the code
    hands it over. *)
Module Store.
Import Schema.

Record Db := {
  leases : list Lease.t;
  tenants : list Tenant.t;
  invoiceGenerationLogs : list GenerationLog.t;
  pendingInvoices : list PendingInvoice.t;
  invoices : list Invoice.t;
  nextLogId : Z;
  nextPendingInvoiceId : Z;
  nextInvoiceId : Z }.

Inductive Outcome (A : Type) :=
| Ok (a : A)
| Thrown (message : string).
Arguments Ok {A} a.
Arguments Thrown {A} message.

(** [faults k = Some msg]: the k-th statement of the call (from 0) throws
    [Error(msg)], as a lost connection or a server error would. *)
Definition Faults := nat -> option string.

Definition noFaults : Faults := fun _ => None.

(** The store during a call: its current contents, the number of
    statements issued so far, and the contents after each statement that
    took effect, latest first. *)
Record World := { db : Db; issued : nat; trail : list Db }.

Definition M (A : Type) : Type := Faults -> World -> World * Outcome A.

Definition ret {A} (a : A) : M A := fun _ w => (w, Ok a).

Definition bind {A B} (m : M A) (k : A -> M B) : M B :=
  fun f w =>
    match m f w with
    | (w', Ok a) => k a f w'
    | (w', Thrown e) => (w', Thrown e)
    end.

(** [try { m } catch (error) { h error.message }]. *)
Definition tryCatch {A} (m : M A) (h : string -> M A) : M A :=
  fun f w =>
    match m f w with
    | (w', Thrown e) => h e f w'
    | r => r
    end.

(** One awaited query. *)
Definition statement {A} (q : Db -> Outcome (Db * A)) : M A :=
  fun f w =>
    match f (issued w) with
    | Some msg => ({| db := db w; issued := S (issued w); trail := trail w |}, Thrown msg)
    | None =>
        match q (db w) with
        | Thrown msg =>
            ({| db := db w; issued := S (issued w); trail := trail w |}, Thrown msg)
        | Ok (d', a) =>
            ({| db := d'; issued := S (issued w); trail := d' :: trail w |}, Ok a)
        end
    end.

Definition start (d : Db) : World := {| db := d; issued := 0; trail := [] |}.

Definition withLogs (d : Db) (ls : list GenerationLog.t) (next : Z) : Db :=
  {| leases := leases d; tenants := tenants d;
     invoiceGenerationLogs := ls;
     pendingInvoices := pendingInvoices d; invoices := invoices d;
     nextLogId := next;
     nextPendingInvoiceId := nextPendingInvoiceId d;
     nextInvoiceId := nextInvoiceId d |}.

Definition withPending (d : Db) (ps : list PendingInvoice.t) (next : Z) : Db :=
  {| leases := leases d; tenants := tenants d;
     invoiceGenerationLogs := invoiceGenerationLogs d;
     pendingInvoices := ps; invoices := invoices d;
     nextLogId := nextLogId d;
     nextPendingInvoiceId := next;
     nextInvoiceId := nextInvoiceId d |}.

Definition withInvoices (d : Db) (rows : list Invoice.t) (next : Z) : Db :=
  {| leases := leases d; tenants := tenants d;
     invoiceGenerationLogs := invoiceGenerationLogs d;
     pendingInvoices := pendingInvoices d; invoices := rows;
     nextLogId := nextLogId d;
     nextPendingInvoiceId := nextPendingInvoiceId d;
     nextInvoiceId := next |}.

Definition isActive (s : LeaseStatus) : bool :=
  match s with LeaseActive => true | _ => false end.

(** [db.select().from(leases).where(eq(leases.status, "active"))]. *)
Definition selectActiveLeases (d : Db) : Outcome (Db * list Lease.t) :=
  Ok (d, filter (fun l => isActive (Lease.status l)) (leases d)).

(** [db.select().from(tenants)]. *)
Definition selectTenants (d : Db) : Outcome (Db * list Tenant.t) :=
  Ok (d, tenants d).

Definition setLogId (i : Z) (r : GenerationLog.t) : GenerationLog.t :=
  {| GenerationLog.id := i;
     GenerationLog.invoicesGenerated := GenerationLog.invoicesGenerated r;
     GenerationLog.propertiesAffected := GenerationLog.propertiesAffected r;
     GenerationLog.status := GenerationLog.status r;
     GenerationLog.details := GenerationLog.details r |}.

(** [db.insert(invoiceGenerationLogs).values(row)]; the result carries
    the [insertId] of the new row. *)
Definition insertLog (row : GenerationLog.t) (d : Db) : Outcome (Db * Z) :=
  let i := nextLogId d in
  Ok (withLogs d (invoiceGenerationLogs d ++ [setLogId i row]) (i + 1), i).

(** [db.update(invoiceGenerationLogs).set(patch).where(eq(id, logId))]. *)
Definition updateLog (logId : Z) (patch : GenerationLog.t -> GenerationLog.t)
    (d : Db) : Outcome (Db * unit) :=
  Ok (withLogs d
        (map (fun r => if GenerationLog.id r =? logId then patch r else r)
             (invoiceGenerationLogs d))
        (nextLogId d), tt).

Definition setPendingId (i : Z) (r : PendingInvoice.t) : PendingInvoice.t :=
  {| PendingInvoice.id := i;
     PendingInvoice.leaseId := PendingInvoice.leaseId r;
     PendingInvoice.invoiceNumber := PendingInvoice.invoiceNumber r;
     PendingInvoice.invoiceDate := PendingInvoice.invoiceDate r;
     PendingInvoice.dueDate := PendingInvoice.dueDate r;
     PendingInvoice.periodStart := PendingInvoice.periodStart r;
     PendingInvoice.periodEnd := PendingInvoice.periodEnd r;
     PendingInvoice.rentAmount := PendingInvoice.rentAmount r;
     PendingInvoice.serviceChargeAmount := PendingInvoice.serviceChargeAmount r;
     PendingInvoice.utilitiesAmount := PendingInvoice.utilitiesAmount r;
     PendingInvoice.totalAmount := PendingInvoice.totalAmount r;
     PendingInvoice.notes := PendingInvoice.notes r;
     PendingInvoice.generationLogId := PendingInvoice.generationLogId r |}.

Definition setInvoiceId (i : Z) (r : Invoice.t) : Invoice.t :=
  {| Invoice.id := i;
     Invoice.leaseId := Invoice.leaseId r;
     Invoice.invoiceNumber := Invoice.invoiceNumber r;
     Invoice.invoiceDate := Invoice.invoiceDate r;
     Invoice.dueDate := Invoice.dueDate r;
     Invoice.periodStart := Invoice.periodStart r;
     Invoice.periodEnd := Invoice.periodEnd r;
     Invoice.rentAmount := Invoice.rentAmount r;
     Invoice.serviceChargeAmount := Invoice.serviceChargeAmount r;
     Invoice.utilitiesAmount := Invoice.utilitiesAmount r;
     Invoice.totalAmount := Invoice.totalAmount r;
     Invoice.paidAmount := Invoice.paidAmount r;
     Invoice.status := Invoice.status r;
     Invoice.notes := Invoice.notes r |}.

(** Rows of one insert receive consecutive autoincrement ids. *)
Fixpoint assignIds {A} (set : Z -> A -> A) (next : Z) (rows : list A) : list A :=
  match rows with
  | [] => []
  | r :: rs => set next r :: assignIds set (next + 1) rs
  end.

(** [db.insert(pendingInvoices).values(rows)]. *)
Definition insertPendingInvoices (rows : list PendingInvoice.t) (d : Db)
    : Outcome (Db * unit) :=
  let i := nextPendingInvoiceId d in
  Ok (withPending d (pendingInvoices d ++ assignIds setPendingId i rows)
                  (i + Z.of_nat (List.length rows)), tt).

(** [db.select().from(pendingInvoices).where(eq(generationLogId, logId))]. *)
Definition ofLog (logId : Z) (p : PendingInvoice.t) : bool :=
  PendingInvoice.generationLogId p =? logId.

Definition selectPending (logId : Z) (d : Db) : Outcome (Db * list PendingInvoice.t) :=
  Ok (d, filter (ofLog logId) (pendingInvoices d)).

(** [db.delete(pendingInvoices).where(eq(generationLogId, logId))]. *)
Definition deletePending (logId : Z) (d : Db) : Outcome (Db * unit) :=
  Ok (withPending d (filter (fun p => negb (ofLog logId p)) (pendingInvoices d))
                  (nextPendingInvoiceId d), tt).

(** The [invoiceNumber] column of [invoices] is declared [unique()]. *)
Fixpoint distinct (l : list string) : bool :=
  match l with
  | [] => true
  | x :: r => negb (existsb (String.eqb x) r) && distinct r
  end.

(** [db.insert(invoices).values(rows)]: rejected as a whole when an
    invoice number would occur twice in the table. *)
Definition insertInvoices (rows : list Invoice.t) (d : Db) : Outcome (Db * unit) :=
  let i := nextInvoiceId d in
  if distinct (map Invoice.invoiceNumber (invoices d ++ rows)) then
    Ok (withInvoices d (invoices d ++ assignIds setInvoiceId i rows)
                     (i + Z.of_nat (List.length rows)), tt)
  else Thrown "Duplicate entry for key 'invoices.invoiceNumber'".

(** What a call of an engine function leaves behind. *)
Record Run (A : Type) := { result : A; final : Db; history : list Db }.
Arguments result {A} r.
Arguments final {A} r.
Arguments history {A} r.

Definition run {A} (m : M A) (faults : Faults) (d : Db) (onThrow : string -> A) : Run A :=
  match m faults (start d) with
  | (w, Ok a) => {| result := a; final := db w; history := trail w |}
  | (w, Thrown e) => {| result := onThrow e; final := db w; history := trail w |}
  end.

End Store.

Declare Scope store_scope.
Delimit Scope store_scope with store.
Notation "x <- m ;; k" := (Store.bind m (fun x => k))
  (at level 61, m at next level, right associativity) : store_scope.
Notation "m ;;; k" := (Store.bind m (fun _ => k))
  (at level 61, right associativity) : store_scope.

(* ================================================================== *)
(** * server/invoiceGeneration.ts                                      *)
(* ================================================================== *)

Module InvoiceGeneration.
Import Schema Store JSString.

(** What surrounds a call: whether [getDb()] yields a handle, the clock,
    the faults of the store and the random bytes [nanoid] draws. *)
Record Env := {
  dbAvailable : bool;
  now : JSDate.t;
  faults : Faults;
  random : nat -> N }.

Inductive GenerateResult :=
| GenerateSuccess (invoicesGenerated propertiesAffected logId : Z)
| GenerateFailure (error : string).

Inductive FinalizeResult :=
| FinalizeSuccess (invoicesFinalized : Z)
| FinalizeFailure (error : string).

Definition monthName (m : Z) : string :=
  match m with
  | 0 => "January" | 1 => "February" | 2 => "March" | 3 => "April"
  | 4 => "May" | 5 => "June" | 6 => "July" | 7 => "August"
  | 8 => "September" | 9 => "October" | 10 => "November" | _ => "December"
  end.

(** [d.toLocaleString("default", { month: "long", year: "numeric" })],
    for an English default locale. *)
Definition monthYear (d : JSDate.t) : string :=
  monthName (JSDate.getMonth d) ++ " " ++ ofInteger (JSDate.getFullYear d).

(** The invoice number of line 49. *)
Definition invoiceNumberOf (currentYear currentMonth : Z) (id : string) : string :=
  "INV-" ++ ofInteger currentYear ++ padStart0 2 (ofInteger (currentMonth + 1))
         ++ "-" ++ toUpperCase id.

(** The body of the [for (const lease of activeLeases)] loop: the row
    pushed for one lease; [pos] is the number of random bytes drawn by
    the iterations before. *)
Definition pendingInvoiceFor (env : Env) (logId : Z) (pos : nat) (lease : Lease.t)
    : PendingInvoice.t :=
  let currentMonth := JSDate.getMonth (now env) in
  let currentYear := JSDate.getFullYear (now env) in
  let invoiceNumber :=
    invoiceNumberOf currentYear currentMonth (Nanoid.nanoid (random env) pos 6) in
  let periodStart := JSDate.newDate currentYear currentMonth 1 in
  let periodEnd := JSDate.newDate currentYear (currentMonth + 1) 0 in
  let dueDate := JSDate.newDate currentYear (currentMonth + 1) 10 in
  let rentAmount := JSNumber.parseFloat (Lease.monthlyRent lease) in
  let serviceChargeAmount := JSNumber.parseFloat (Lease.serviceCharge lease) in
  let utilitiesAmount := JSNumber.zero in
  let totalAmount :=
    JSNumber.add (JSNumber.add rentAmount serviceChargeAmount) utilitiesAmount in
  {| PendingInvoice.id := 0;
     PendingInvoice.leaseId := Lease.id lease;
     PendingInvoice.invoiceNumber := invoiceNumber;
     PendingInvoice.invoiceDate := now env;
     PendingInvoice.dueDate := dueDate;
     PendingInvoice.periodStart := periodStart;
     PendingInvoice.periodEnd := periodEnd;
     PendingInvoice.rentAmount := JSNumber.toString rentAmount;
     PendingInvoice.serviceChargeAmount := JSNumber.toString serviceChargeAmount;
     PendingInvoice.utilitiesAmount := JSNumber.toString utilitiesAmount;
     PendingInvoice.totalAmount := JSNumber.toString totalAmount;
     PendingInvoice.notes :=
       Some ("Auto-generated invoice for " ++ monthYear periodStart);
     PendingInvoice.generationLogId := logId |}.

Fixpoint generateRows (env : Env) (logId : Z) (pos : nat) (activeLeases : list Lease.t)
    : list PendingInvoice.t :=
  match activeLeases with
  | [] => []
  | lease :: rest =>
      pendingInvoiceFor env logId pos lease :: generateRows env logId (pos + 6) rest
  end.

(** [affectedProperties]: a [Set<number>] of the lease ids added. *)
Definition affectedProperties (activeLeases : list Lease.t) : list Z :=
  nodup Z.eq_dec (map Lease.id activeLeases).

(** The [.set({ invoicesGenerated, propertiesAffected, details })] of
    lines 86-90. *)
Definition setCounts (invoicesGenerated propertiesAffected : Z) (r : GenerationLog.t)
    : GenerationLog.t :=
  {| GenerationLog.id := GenerationLog.id r;
     GenerationLog.invoicesGenerated := invoicesGenerated;
     GenerationLog.propertiesAffected := propertiesAffected;
     GenerationLog.status := GenerationLog.status r;
     GenerationLog.details :=
       Some ("Successfully generated " ++ ofInteger invoicesGenerated
             ++ " invoices for review. Status: Pending Admin Review") |}.

(** The [.set({ status: "finalized", details })] of lines 173-176. *)
Definition setFinalized (count : Z) (r : GenerationLog.t) : GenerationLog.t :=
  {| GenerationLog.id := GenerationLog.id r;
     GenerationLog.invoicesGenerated := GenerationLog.invoicesGenerated r;
     GenerationLog.propertiesAffected := GenerationLog.propertiesAffected r;
     GenerationLog.status := Finalized;
     GenerationLog.details :=
       Some ("Finalized " ++ ofInteger count ++ " invoices. Ready for collection.") |}.

Definition generationBody (env : Env) : M (option GenerateResult) :=
  (activeLeases <- statement selectActiveLeases ;;
   if (List.length activeLeases =? 0)%nat then ret None
   else
     insertId <- statement (insertLog
       {| GenerationLog.id := 0;
          GenerationLog.invoicesGenerated := 0;
          GenerationLog.propertiesAffected := 0;
          GenerationLog.status := PendingReview;
          GenerationLog.details :=
            Some ("Invoice generation for " ++ monthYear (now env)) |}) ;;
     let logId := if insertId =? 0 then 1 else insertId in
     let generatedInvoices := generateRows env logId 0 activeLeases in
     let invoicesGenerated := Z.of_nat (List.length generatedInvoices) in
     let propertiesAffected :=
       Z.of_nat (List.length (affectedProperties activeLeases)) in
     (if (0 <? List.length generatedInvoices)%nat
      then statement (insertPendingInvoices generatedInvoices)
      else ret tt) ;;;
     statement (updateLog logId (setCounts invoicesGenerated propertiesAffected)) ;;;
     ret (Some (GenerateSuccess invoicesGenerated propertiesAffected logId)))%store.

(** The [catch] block: a best-effort [failed] log row, then the failure. *)
Definition generationFailed (e : string) : M (option GenerateResult) :=
  (tryCatch
     (_ <- statement (insertLog
        {| GenerationLog.id := 0;
           GenerationLog.invoicesGenerated := 0;
           GenerationLog.propertiesAffected := 0;
           GenerationLog.status := Failed;
           GenerationLog.details := Some ("Invoice generation failed: " ++ e) |}) ;;
      ret tt)
     (fun _ => ret tt) ;;;
   ret (Some (GenerateFailure e)))%store.

(** [generateMonthlyInvoices()]; [None] is the [undefined] of the two bare
    [return;] statements. *)
Definition generateMonthlyInvoices (env : Env) (d : Db) : Run (option GenerateResult) :=
  if negb (dbAvailable env) then {| result := None; final := d; history := [] |}
  else run (tryCatch (generationBody env) generationFailed) (faults env) d
           (fun e => Some (GenerateFailure e)).

(** The [pending.map((p) => ({ ... }))] of lines 148-162. *)
Definition toInvoice (p : PendingInvoice.t) : Invoice.t :=
  {| Invoice.id := 0;
     Invoice.leaseId := PendingInvoice.leaseId p;
     Invoice.invoiceNumber := PendingInvoice.invoiceNumber p;
     Invoice.invoiceDate := PendingInvoice.invoiceDate p;
     Invoice.dueDate := PendingInvoice.dueDate p;
     Invoice.periodStart := PendingInvoice.periodStart p;
     Invoice.periodEnd := PendingInvoice.periodEnd p;
     Invoice.rentAmount := PendingInvoice.rentAmount p;
     Invoice.serviceChargeAmount := PendingInvoice.serviceChargeAmount p;
     Invoice.utilitiesAmount := PendingInvoice.utilitiesAmount p;
     Invoice.totalAmount := PendingInvoice.totalAmount p;
     Invoice.paidAmount := "0.00";
     Invoice.status := Unpaid;
     Invoice.notes := PendingInvoice.notes p |}.

Definition finalizeBody (logId : Z) : M (option FinalizeResult) :=
  (pending <- statement (selectPending logId) ;;
   if (List.length pending =? 0)%nat then ret None
   else
     let invoicesToCreate := map toInvoice pending in
     statement (insertInvoices invoicesToCreate) ;;;
     statement (deletePending logId) ;;;
     statement (updateLog logId
                  (setFinalized (Z.of_nat (List.length invoicesToCreate)))) ;;;
     ret (Some (FinalizeSuccess (Z.of_nat (List.length invoicesToCreate)))))%store.

(** [finalizePendingInvoices(logId)]. *)
Definition finalizePendingInvoices (env : Env) (logId : Z) (d : Db)
    : Run (option FinalizeResult) :=
  if negb (dbAvailable env) then {| result := None; final := d; history := [] |}
  else run (tryCatch (finalizeBody logId)
                     (fun e => ret (Some (FinalizeFailure e))))
           (faults env) d (fun e => Some (FinalizeFailure e)).

End InvoiceGeneration.

(* ================================================================== *)
(** * Vocabulary of the statements about the engines                   *)
(* ================================================================== *)

Module Stages.
Import Schema Store InvoiceGeneration JSString.

(** The drafts of a generation log, as [finalizePendingInvoices] selects
    them. *)
Definition draftsOf (logId : Z) (d : Db) : list PendingInvoice.t :=
  filter (ofLog logId) (pendingInvoices d).

(** The store after the insert, after the delete and after the log
    update of a finalization that started from [d]. *)
Definition afterInsert (logId : Z) (d : Db) : Db :=
  withInvoices d
    (invoices d ++ assignIds setInvoiceId (nextInvoiceId d)
                             (map toInvoice (draftsOf logId d)))
    (nextInvoiceId d + Z.of_nat (List.length (map toInvoice (draftsOf logId d)))).

Definition afterDelete (logId : Z) (d : Db) : Db :=
  withPending (afterInsert logId d)
    (filter (fun p => negb (ofLog logId p)) (pendingInvoices d))
    (nextPendingInvoiceId d).

Definition afterFinalized (logId : Z) (d : Db) : Db :=
  withLogs (afterDelete logId d)
    (map (fun r => if GenerationLog.id r =? logId
                   then setFinalized (Z.of_nat (List.length (map toInvoice (draftsOf logId d)))) r
                   else r)
         (invoiceGenerationLogs d))
    (nextLogId d).

(** The four ways a finalization can end, with the states the store went
    through (latest first). *)
Inductive FinalizeRun (env : Env) (logId : Z) (d : Db)
    : Run (option FinalizeResult) -> Prop :=
| FinalizeNothing (res : option FinalizeResult) (h : list Db) :
    (res = None \/ exists e, res = Some (FinalizeFailure e)) ->
    (res = None -> dbAvailable env = false \/ (faults env 0%nat = None /\ draftsOf logId d = [])) ->
    (h = [] \/ h = [d]) ->
    FinalizeRun env logId d {| result := res; final := d; history := h |}
| FinalizeInserted (e : string) :
    draftsOf logId d <> [] ->
    FinalizeRun env logId d
      {| result := Some (FinalizeFailure e);
         final := afterInsert logId d;
         history := [afterInsert logId d; d] |}
| FinalizeDeleted (e : string) :
    draftsOf logId d <> [] ->
    FinalizeRun env logId d
      {| result := Some (FinalizeFailure e);
         final := afterDelete logId d;
         history := [afterDelete logId d; afterInsert logId d; d] |}
| FinalizeDone :
    draftsOf logId d <> [] ->
    dbAvailable env = true ->
    FinalizeRun env logId d
      {| result := Some (FinalizeSuccess (Z.of_nat (List.length (draftsOf logId d))));
         final := afterFinalized logId d;
         history := [afterFinalized logId d; afterDelete logId d;
                     afterInsert logId d; d] |}.

(** The leases a generation run reads and the log id it tags its rows
    with. *)
Definition activeLeasesOf (d : Db) : list Lease.t :=
  filter (fun l => isActive (Lease.status l)) (leases d).

Definition logIdOf (d : Db) : Z := if nextLogId d =? 0 then 1 else nextLogId d.

(** The rows a generation run inserts, with the ids the store gives them. *)
Definition generatedRows (env : Env) (d : Db) : list PendingInvoice.t :=
  assignIds setPendingId (nextPendingInvoiceId d)
            (generateRows env (logIdOf d) 0 (activeLeasesOf d)).

(** The pending invoices a generation run added to the table. *)
Definition created (env : Env) (d : Db) : list PendingInvoice.t :=
  skipn (List.length (pendingInvoices d))
        (pendingInvoices (final (generateMonthlyInvoices env d))).

(** The invoices a finalization added to the table. *)
Definition finalized (env : Env) (logId : Z) (d : Db) : list Invoice.t :=
  skipn (List.length (invoices d))
        (invoices (final (finalizePendingInvoices env logId d))).

(** An invoice that carries a draft over: the fields of lines 149-161. *)
Definition carriesOver (p : PendingInvoice.t) (i : Invoice.t) : Prop :=
  Invoice.leaseId i = PendingInvoice.leaseId p /\
  Invoice.invoiceNumber i = PendingInvoice.invoiceNumber p /\
  Invoice.invoiceDate i = PendingInvoice.invoiceDate p /\
  Invoice.dueDate i = PendingInvoice.dueDate p /\
  Invoice.periodStart i = PendingInvoice.periodStart p /\
  Invoice.periodEnd i = PendingInvoice.periodEnd p /\
  Invoice.rentAmount i = PendingInvoice.rentAmount p /\
  Invoice.serviceChargeAmount i = PendingInvoice.serviceChargeAmount p /\
  Invoice.utilitiesAmount i = PendingInvoice.utilitiesAmount p /\
  Invoice.totalAmount i = PendingInvoice.totalAmount p /\
  Invoice.paidAmount i = "0.00" /\
  Invoice.status i = Unpaid /\
  Invoice.notes i = PendingInvoice.notes p.



Definition isAlphanumeric (c : ascii) : bool :=
  let n := code c in
  (((48 <=? n) && (n <=? 57)) || ((65 <=? n) && (n <=? 90))
   || ((97 <=? n) && (n <=? 122)))%N.

(** The six characters [toUpperCase] leaves of a [nanoid(6)]: letters,
    digits, and the two further symbols of the URL alphabet. *)
Definition isUrlSymbol (c : ascii) : bool :=
  isAlphanumeric c || Ascii.eqb c "_" || Ascii.eqb c "-".

End Stages.

(* ================================================================== *)
(** * Sample stores                                                    *)
(* ================================================================== *)

Module Samples.
Import Schema Store InvoiceGeneration.

Definition lease (i : Z) (rent charge : string) (st : LeaseStatus) : Lease.t :=
  {| Lease.id := i; Lease.tenantId := i; Lease.unitId := i;
     Lease.monthlyRent := rent; Lease.serviceCharge := charge;
     Lease.status := st |}.

(** Three leases, two of them active: cents that binary64 cannot add
    exactly, and the amounts of the scenario of the specification. *)
Definition dbLeases : Db :=
  {| leases := [lease 1 "0.10" "0.20" LeaseActive;
                lease 2 "7000.00" "0.00" LeaseTerminated;
                lease 3 "10000.00" "500.00" LeaseActive];
     tenants := [];
     invoiceGenerationLogs := [];
     pendingInvoices := [];
     invoices := [];
     nextLogId := 1; nextPendingInvoiceId := 1; nextInvoiceId := 1 |}.

(** 12 January 2025 (day 20100), a reachable store that never fails, and
    random bytes 8, 15, 22, ... *)
Definition env : Env :=
  {| dbAvailable := true; now := 20100; faults := noFaults;
     random := fun i => N.of_nat (i * 7 + 8) |}.

(** The same surroundings with a store that fails on the third statement
    of a call (the delete of a finalization). *)
Definition envDeleteFails : Env :=
  {| dbAvailable := true; now := 20100;
     faults := fun k => if (k =? 2)%nat then Some "Connection lost" else None;
     random := fun i => N.of_nat (i * 7 + 8) |}.

(** The store after a generation run on [dbLeases]: two drafts under
    log 1. *)
Definition dbDrafts : Db := final (generateMonthlyInvoices env dbLeases).

End Samples.

(* ================================================================== *)
(** * server/paymentMatching.ts                                        *)
(* ================================================================== *)

Module PaymentMatching.
Import Schema Store JSString.

(** Where [paymentDate] comes from: [new Date(parts[dateIdx])] on the
    (possibly missing) field, or [new Date()]. *)
Inductive PaymentDate :=
| DateOfField (field : option string)
| DateNow.

Record ParsedPayment := {
  paymentDate : PaymentDate;
  amount : JSNumber.number;
  payerName : string;
  phoneNumber : option string;
  referenceCode : option string;
  description : option string }.

Record MatchResult := {
  tenantId : option Z;
  invoiceId : option Z;
  matchStatus : MatchStatus;
  matchConfidence : Z;
  matchReason : option string }.

(** [phone.replace(/\D/g, "").slice(-9)]. *)
Definition normalizePhoneNumber (phone : string) : string :=
  ofChars (sliceLast 9 (filter isDigit (chars phone))).

(** [costs[j] = v] on a JavaScript array: an index at or past the end
    extends the array (the holes in between, never read here, are 0). *)
Fixpoint arraySet (costs : list nat) (j : nat) (v : nat) : list nat :=
  match costs, j with
  | [], O => [v]
  | [], S j' => O :: arraySet [] j' v
  | _ :: r, O => v :: r
  | c :: r, S j' => c :: arraySet r j' v
  end.

Definition arrayGet (costs : list nat) (j : nat) : nat := nth j costs O.

(** The pass [i = 0] of the outer loop: [costs[j] = j] for [j = 0..n]. *)
Definition firstRow (n : nat) : list nat :=
  fold_left (fun costs j => arraySet costs j j) (seq 0 (S n)) [].

(** One iteration [j > 0] of the inner loop for a row [i > 0]; [c1] is
    [s1.charAt(i - 1)], the state is [(costs, lastValue)]. *)
Definition innerStep (c1 : ascii) (s2 : list ascii) (st : list nat * nat) (j : nat)
    : list nat * nat :=
  let '(costs, lastValue) := st in
  let newValue := arrayGet costs (j - 1)%nat in
  let newValue :=
    if negb (Ascii.eqb c1 (nth (j - 1)%nat s2 "000"%char))
    then (Nat.min (Nat.min newValue lastValue) (arrayGet costs j) + 1)%nat
    else newValue in
  (arraySet costs (j - 1)%nat lastValue, newValue).

(** One pass [i > 0]: [lastValue = i], the iterations [j = 1..s2.length]
    ([j = 0] does nothing), then [costs[s2.length] = lastValue]. *)
Definition rowStep (s2 : list ascii) (costs : list nat) (ic : nat * ascii) : list nat :=
  let '(i, c1) := ic in
  let '(costs', lastValue) :=
    fold_left (innerStep c1 s2) (seq 1 (List.length s2)) (costs, i) in
  arraySet costs' (List.length s2) lastValue.

(** [getEditDistance(s1, s2)]. *)
Definition getEditDistanceChars (s1 s2 : list ascii) : nat :=
  let rows := combine (seq 1 (List.length s1)) s1 in
  arrayGet (fold_left (rowStep s2) rows (firstRow (List.length s2))) (List.length s2).

Definition getEditDistance (s1 s2 : string) : nat :=
  getEditDistanceChars (chars s1) (chars s2).

(** [calculateSimilarity(str1, str2)].  The result is kept as the exact
    rational [(longer.length - editDistance) / longer.length * 100];
    [Binary64Similarity] below compares it with the rounded binary64
    computation of the code. *)
Definition calculateSimilarity (str1 str2 : string) : Q :=
  let s1 := trim (toLowerCase str1) in
  let s2 := trim (toLowerCase str2) in
  if String.eqb s1 s2 then 100%Q
  else
    let longer := if (String.length s2 <? String.length s1)%nat then s1 else s2 in
    let shorter := if (String.length s2 <? String.length s1)%nat then s2 else s1 in
    if (String.length longer =? 0)%nat then 100%Q
    else
      let editDistance := getEditDistance longer shorter in
      ((inject_Z (Z.of_nat (String.length longer) - Z.of_nat editDistance)
        / inject_Z (Z.of_nat (String.length longer))) * 100)%Q.

(** [Math.round]: the nearest integer, a half rounds up. *)
Definition MathRound (x : Q) : Z := Qfloor (x + (1 # 2))%Q.

Definition Qgtb (x y : Q) : bool := negb (Qle_bool x y).

(** The phone loop of lines 426-442 on an already normalized payment
    phone: the first tenant with a truthy phone that normalizes to it. *)
Definition phoneMatches (normalizedPhone : string) (tenant : Tenant.t) : bool :=
  truthy (Some (Tenant.phone tenant))
  && String.eqb (normalizePhoneNumber (Tenant.phone tenant)) normalizedPhone.

Record BestMatch := {
  bestTenant : option Tenant.t;
  bestSimilarity : Q;
  bestConfidence : Z }.

Definition noMatch : BestMatch :=
  {| bestTenant := None; bestSimilarity := 0; bestConfidence := 0 |}.

(** Lines 452-453: the similarity of the payer name to a tenant's
    lower-cased "first last" name. *)
Definition similarityTo (payment : ParsedPayment) (tenant : Tenant.t) : Q :=
  let fullName :=
    toLowerCase (Tenant.firstName tenant ++ " " ++ Tenant.lastName tenant) in
  calculateSimilarity (payerName payment) fullName.

(** The body of the name loop of lines 451-461. *)
Definition nameStep (payment : ParsedPayment) (bestMatch : BestMatch) (tenant : Tenant.t)
    : BestMatch :=
  let similarity := similarityTo payment tenant in
  if Qgtb similarity 60 && Qgtb similarity (bestSimilarity bestMatch)
  then {| bestTenant := Some tenant;
          bestSimilarity := similarity;
          bestConfidence := MathRound similarity |}
  else bestMatch.

Definition bestNameMatch (payment : ParsedPayment) (allTenants : list Tenant.t)
    : BestMatch :=
  fold_left (nameStep payment) allTenants noMatch.

(** Lines 444-476: what follows the phone loop. *)
Definition matchByName (payment : ParsedPayment) (allTenants : list Tenant.t)
    : MatchResult :=
  let bestMatch := bestNameMatch payment allTenants in
  match bestTenant bestMatch with
  | Some tenant =>
      if 70 <? bestConfidence bestMatch then
        {| tenantId := Some (Tenant.id tenant); invoiceId := None;
           matchStatus := Matched;
           matchConfidence := bestConfidence bestMatch;
           matchReason :=
             Some ("Name match (" ++ ofInteger (bestConfidence bestMatch)
                   ++ "% similarity)") |}
      else
        {| tenantId := None; invoiceId := None; matchStatus := Unmatched;
           matchConfidence := bestConfidence bestMatch;
           matchReason := Some "No clear match found" |}
  | None =>
      {| tenantId := None; invoiceId := None; matchStatus := Unmatched;
         matchConfidence := bestConfidence bestMatch;
         matchReason := Some "No clear match found" |}
  end.

(** The [try] block once [allTenants] has been read. *)
Definition matchAgainst (allTenants : list Tenant.t) (payment : ParsedPayment)
    : MatchResult :=
  let byPhone :=
    if truthy (phoneNumber payment) then
      match phoneNumber payment with
      | Some phone => find (phoneMatches (normalizePhoneNumber phone)) allTenants
      | None => None
      end
    else None in
  match byPhone with
  | Some tenant =>
      {| tenantId := Some (Tenant.id tenant); invoiceId := None;
         matchStatus := Matched; matchConfidence := 100;
         matchReason := Some "Phone number match" |}
  | None => matchByName payment allTenants
  end.

Definition noResult : MatchResult :=
  {| tenantId := None; invoiceId := None; matchStatus := Unmatched;
     matchConfidence := 0; matchReason := None |}.

(** [autoMatchPaymentToTenant(payment)]: [available] tells whether
    [getDb()] yields a handle, [faults] which statement throws. *)
Definition autoMatchPaymentToTenant (available : bool) (faults : Faults) (d : Db)
    (payment : ParsedPayment) : MatchResult :=
  if negb available then noResult
  else
    result (run (allTenants <- statement selectTenants ;;
                 ret (matchAgainst allTenants payment))%store
                faults d (fun _ => noResult)).

(** The column of the header whose name contains one of the tokens. *)
Definition headerIndex (header : list string) (tokens : list string) : option nat :=
  findIndex (fun h => existsb (includes h) tokens) header.

(** [idx >= 0 ? parts[idx] : undefined]. *)
Definition field (parts : list string) (idx : option nat) : option string :=
  match idx with
  | Some i => nth_error parts i
  | None => None
  end.

Record Columns := {
  dateIdx : option nat; amountIdx : option nat; nameIdx : option nat;
  phoneIdx : option nat; refIdx : option nat; descIdx : option nat }.

Definition columnsOf (headerLine : string) : Columns :=
  let header := map (fun h => toLowerCase (trim h)) (split "," headerLine) in
  {| dateIdx := headerIndex header ["date"];
     amountIdx := headerIndex header ["amount"];
     nameIdx := headerIndex header ["name"; "payer"];
     phoneIdx := headerIndex header ["phone"];
     refIdx := headerIndex header ["reference"; "ref"];
     descIdx := headerIndex header ["description"; "note"] |}.

(** Lines 505-507: the three values read from the fields of a line. *)
Definition paymentDateOf (cols : Columns) (parts : list string) : PaymentDate :=
  match dateIdx cols with
  | Some i => DateOfField (nth_error parts i)
  | None => DateNow
  end.

Definition amountOf (cols : Columns) (parts : list string) : JSNumber.number :=
  match amountIdx cols with
  | Some i => JSNumber.parseFloatOpt (nth_error parts i)
  | None => JSNumber.zero
  end.

Definition payerNameOf (cols : Columns) (parts : list string) : option string :=
  match nameIdx cols with
  | Some i => nth_error parts i
  | None => Some "Unknown"
  end.

(** [lines[i].split(",").map((p) => p.trim())]. *)
Definition partsOf (line : string) : list string := map trim (split "," line).

(** The body of the [for] loop of lines 501-519 on one data line: the
    payment pushed, if any. *)
Definition parseLine (cols : Columns) (line : string) : option ParsedPayment :=
  let parts := partsOf line in
  if (List.length parts <? 2)%nat then None
  else
    let paymentDate := paymentDateOf cols parts in
    let amount := amountOf cols parts in
    let payerName := payerNameOf cols parts in
    if JSNumber.gt amount JSNumber.zero && truthy payerName then
      match payerName with
      | Some name =>
          Some {| paymentDate := paymentDate;
                  amount := amount;
                  payerName := name;
                  phoneNumber := field parts (phoneIdx cols);
                  referenceCode := field parts (refIdx cols);
                  description := field parts (descIdx cols) |}
      | None => None
      end
    else None.

Fixpoint collect {A B} (f : A -> option B) (l : list A) : list B :=
  match l with
  | [] => []
  | x :: r => match f x with
              | Some y => y :: collect f r
              | None => collect f r
              end
  end.

(** [csvContent.trim().split("\n")]. *)
Definition linesOf (csvContent : string) : list string :=
  split "010"%char (trim csvContent).

(** [parseCSVPayments(csvContent)]. *)
Definition parseCSVPayments (csvContent : string) : list ParsedPayment :=
  let lines := linesOf csvContent in
  if (List.length lines <? 2)%nat then []
  else
    match lines with
    | headerLine :: dataLines => collect (parseLine (columnsOf headerLine)) dataLines
    | [] => []
    end.

End PaymentMatching.

(** The similarity as the code computes it, in binary64, next to the
    exact value that [calculateSimilarity] above returns: [L] is
    [longer.length] and [e] the edit distance. *)
Module Binary64Similarity.
Import PaymentMatching JSNumber.

Definition ofInt (z : Z) : number := binary_normalize prec emax z 0 false.

(** [((L - e) / L) * 100] with a rounded division and a rounded product. *)
Definition similarityNumber (L e : Z) : number :=
  SFmul prec emax (SFdiv prec emax (ofInt (L - e)) (ofInt L)) (ofInt 100).

Definition similarityExact (L e : Z) : Q :=
  (inject_Z (L - e) / inject_Z L * 100)%Q.

(** [Math.round] on a finite binary64 value [(-1)^s * m * 2^e]. *)
Definition roundNumber (x : number) : Z :=
  match x with
  | S754_finite s m e =>
      let sm := if s then Z.neg m else Z.pos m in
      if 0 <=? e then sm * 2 ^ e
      else (2 * sm + 2 ^ (- e)) / 2 ^ (1 - e)
  | _ => 0
  end.

(** All [(L, e)] with [1 <= L <= N] and [0 <= e <= L]. *)
Definition pairsUpTo (N : nat) : list (Z * Z) :=
  flat_map (fun L => map (fun e => (Z.of_nat L, Z.of_nat e)) (seq 0 (S L)))
           (seq 1 N).

(** What the name loop observes of one similarity: the test against the
    floor of 60 and, for a candidate, the rounded value. *)
Definition agreeOne (p : Z * Z) : bool :=
  let '(L, e) := p in
  let x := similarityNumber L e in
  let q := similarityExact L e in
  Bool.eqb (gt x (ofInt 60)) (Qgtb q 60) &&
  (if Qgtb q 60 then roundNumber x =? MathRound q else true).

(** What the name loop observes of two similarities: their order. *)
Definition agreeOrder (ps : list (Z * Z)) : bool :=
  let vs := map (fun p => (similarityNumber (fst p) (snd p),
                           similarityExact (fst p) (snd p))) ps in
  forallb (fun a =>
             forallb (fun b => Bool.eqb (gt (fst a) (fst b)) (Qgtb (snd a) (snd b)))
                     vs)
          vs.

End Binary64Similarity.

Module MatchingVocabulary.
Import Schema PaymentMatching.

(** What the name loop holds after the tenants [l]: the confidence is
    the rounded similarity it tracks; without a tenant nothing has been
    recorded and no tenant of [l] is above the floor of 60; with a tenant
    [t], [t] is above the floor, every tenant before it scores strictly
    less and every tenant after it scores at most as much. *)
Definition Tracked (payment : ParsedPayment) (l : list Tenant.t) (b : BestMatch)
    : Prop :=
  let sim := similarityTo payment in
  bestConfidence b = MathRound (bestSimilarity b) /\
  match bestTenant b with
  | None =>
      b = noMatch /\ forall u, In u l -> (sim u <= 60)%Q
  | Some t =>
      bestSimilarity b = sim t /\ (60 < sim t)%Q /\
      exists before after,
        l = (before ++ t :: after)%list /\
        (forall u, In u before -> (sim u < sim t)%Q) /\
        (forall u, In u after -> (sim u <= sim t)%Q)
  end.

(** The payment has no phone number that matches a tenant of the pool. *)
Definition noPhoneMatch (allTenants : list Tenant.t) (payment : ParsedPayment) : Prop :=
  forall phone,
    phoneNumber payment = Some phone -> phone <> "" ->
    find (phoneMatches (normalizePhoneNumber phone)) allTenants = None.

Definition phoneMatched (t : Tenant.t) : MatchResult :=
  {| tenantId := Some (Tenant.id t); invoiceId := None;
     matchStatus := Matched; matchConfidence := 100;
     matchReason := Some "Phone number match" |}.

End MatchingVocabulary.

Module MatchingSamples.
Import Schema PaymentMatching.

Definition newline : string := String "010"%char "".

Definition tenant (i : Z) (first last phone : string) : Tenant.t :=
  {| Tenant.id := i; Tenant.firstName := first; Tenant.lastName := last;
     Tenant.phone := phone |}.

Definition pool : list Tenant.t :=
  [tenant 1 "John" "Doe" "0712345678";
   tenant 2 "Jane" "Smith" "+254 798 765 432";
   tenant 3 "Janet" "Smith" "0798-765-432"].

Definition payment (name : string) (phone : option string) : ParsedPayment :=
  {| paymentDate := DateNow; amount := JSNumber.parseFloat "50000";
     payerName := name; phoneNumber := phone;
     referenceCode := None; description := None |}.

Definition dbTenants : Store.Db :=
  {| Store.leases := []; Store.tenants := pool;
     Store.invoiceGenerationLogs := []; Store.pendingInvoices := [];
     Store.invoices := [];
     Store.nextLogId := 1; Store.nextPendingInvoiceId := 1;
     Store.nextInvoiceId := 1 |}.

(** A feed whose second data row has a blank payer name. *)
Definition feedBlankName : string :=
  "Date,Amount,Payer Name" ++ newline
  ++ "2025-01-15,50000,John Doe" ++ newline
  ++ "2025-01-16,1000," ++ newline
  ++ "2025-01-17,-1000,Jane Smith".

(** A feed without a name column. *)
Definition feedNoNameColumn : string :=
  "Date,Amount" ++ newline ++ "2025-01-15,50000".

End MatchingSamples.

(* ================================================================== *)
(** * The edit distance as a table *)
(* ================================================================== *)

(** The edit distance as a table, and the Levenshtein distance it is
    compared with. *)
Module EditTable.
Import PaymentMatching.

(** The value the loops of [getEditDistance] leave in [costs[j]] after
    the pass [i], read off lines 395-410: [p1] holds the first [i]
    characters of [s1] and [p2] the first [j] characters of [s2], both
    last character first. *)
Fixpoint cell (p1 : list ascii) : list ascii -> nat :=
  fix inner (p2 : list ascii) : nat :=
    match p1, p2 with
    | [], _ => List.length p2
    | _, [] => List.length p1
    | c1 :: p1', c2 :: p2' =>
        if negb (Ascii.eqb c1 c2)
        then (Nat.min (Nat.min (cell p1' p2') (inner p2')) (cell p1' p2) + 1)%nat
        else cell p1' p2'
    end.

(** The entries [costs[k+1..]] of the row of [p1], where [q] holds the
    first [k] characters of [s2] (last first) and [rest] the others. *)
Fixpoint rowTail (p1 q rest : list ascii) : list nat :=
  match rest with
  | [] => []
  | c2 :: rest' => cell p1 (c2 :: q) :: rowTail p1 (c2 :: q) rest'
  end.

Definition row (p1 s2 : list ascii) : list nat := cell p1 [] :: rowTail p1 [] s2.

(** The Levenshtein distance with unit costs, by the Wagner-Fischer
    recurrence on prefixes: the last characters are matched or
    substituted, or one of them is inserted or deleted.  Both arguments
    are read last character first. *)
Fixpoint lev (p1 : list ascii) : list ascii -> nat :=
  fix inner (p2 : list ascii) : nat :=
    match p1, p2 with
    | [], _ => List.length p2
    | _, [] => List.length p1
    | c1 :: p1', c2 :: p2' =>
        Nat.min (Nat.min (lev p1' p2' + (if Ascii.eqb c1 c2 then 0 else 1))
                         (inner p2' + 1))
                (lev p1' p2 + 1)
    end%nat.

Definition levenshtein (s1 s2 : string) : nat :=
  lev (rev (JSString.chars s1)) (rev (JSString.chars s2)).

End EditTable.

(* ================================================================== *)
(** * The upload of a payment feed *)
(* ================================================================== *)

(** [processPaymentUpload] of [paymentMatching.ts] (lines 527-582 of the
    listing in [currency.ts]), over the two tables it writes. *)
Module PaymentUpload.
Import Schema Store PaymentMatching.

(** A row of [importedPayments]: the columns the function sets; the
    [invoiceId], [isProcessed] and [createdAt] columns keep their
    defaults. *)
Module ImportedPayment.
Record t := {
    id : Z; uploadId : Z;
    paymentDate : PaymentDate; amount : string; payerName : string;
    phoneNumber : option string; referenceCode : option string;
    description : option string;
    tenantId : option Z; matchStatus : MatchStatus; matchConfidence : Z }.
End ImportedPayment.

(** A row of [paymentUploads]: its key and the two counters. *)
Module Upload.
Record t := { id : Z; matchedCount : Z; unmatchedCount : Z }.
End Upload.

(** The store of the upload: the tables of the matcher and the two
    tables of the upload. *)
Record UploadDb := {
  core : Db;
  importedPayments : list ImportedPayment.t;
  paymentUploads : list Upload.t;
  nextImportedPaymentId : Z }.

Record UploadResult := {
  success : bool;
  matchedCount : Z;
  unmatchedCount : Z;
  error : option string }.

(** The [.values({ ... })] of lines 543-554. *)
Definition importedRow (uploadId : Z) (payment : ParsedPayment) (matchResult : MatchResult)
    : ImportedPayment.t :=
  {| ImportedPayment.id := 0;
     ImportedPayment.uploadId := uploadId;
     ImportedPayment.paymentDate := PaymentMatching.paymentDate payment;
     ImportedPayment.amount := JSNumber.toString (PaymentMatching.amount payment);
     ImportedPayment.payerName := PaymentMatching.payerName payment;
     ImportedPayment.phoneNumber := PaymentMatching.phoneNumber payment;
     ImportedPayment.referenceCode := PaymentMatching.referenceCode payment;
     ImportedPayment.description := PaymentMatching.description payment;
     ImportedPayment.tenantId := PaymentMatching.tenantId matchResult;
     ImportedPayment.matchStatus := PaymentMatching.matchStatus matchResult;
     ImportedPayment.matchConfidence := PaymentMatching.matchConfidence matchResult |}.

Definition setImportedId (i : Z) (r : ImportedPayment.t) : ImportedPayment.t :=
  {| ImportedPayment.id := i;
     ImportedPayment.uploadId := ImportedPayment.uploadId r;
     ImportedPayment.paymentDate := ImportedPayment.paymentDate r;
     ImportedPayment.amount := ImportedPayment.amount r;
     ImportedPayment.payerName := ImportedPayment.payerName r;
     ImportedPayment.phoneNumber := ImportedPayment.phoneNumber r;
     ImportedPayment.referenceCode := ImportedPayment.referenceCode r;
     ImportedPayment.description := ImportedPayment.description r;
     ImportedPayment.tenantId := ImportedPayment.tenantId r;
     ImportedPayment.matchStatus := ImportedPayment.matchStatus r;
     ImportedPayment.matchConfidence := ImportedPayment.matchConfidence r |}.

(** [db.insert(importedPayments).values(row)]. *)
Definition insertImportedPayment (row : ImportedPayment.t) (d : UploadDb) : UploadDb :=
  {| core := core d;
     importedPayments :=
       importedPayments d ++ [setImportedId (nextImportedPaymentId d) row];
     paymentUploads := paymentUploads d;
     nextImportedPaymentId := nextImportedPaymentId d + 1 |}.

(** [db.update(paymentUploads).set({ matchedCount, unmatchedCount })
    .where(eq(paymentUploads.id, uploadId))]. *)
Definition updateUploadCounts (uploadId matched unmatched : Z) (d : UploadDb) : UploadDb :=
  {| core := core d;
     importedPayments := importedPayments d;
     paymentUploads :=
       map (fun u => if Upload.id u =? uploadId
                     then {| Upload.id := Upload.id u;
                             Upload.matchedCount := matched;
                             Upload.unmatchedCount := unmatched |}
                     else u)
           (paymentUploads d);
     nextImportedPaymentId := nextImportedPaymentId d |}.

Definition isMatched (s : MatchStatus) : bool :=
  match s with Matched => true | _ => false end.

(** The state of the [for] loop of lines 540-561: the store, the number
    of statements awaited so far in the call, and the two counters. *)
Record Progress := {
  store : UploadDb;
  issued : nat;
  matchedSoFar : Z;
  unmatchedSoFar : Z }.

(** The loop.  Each iteration awaits two statements: the tenant query of
    [autoMatchPaymentToTenant], whose failure the matcher catches itself,
    and the insert, whose failure leaves the loop for the [catch] block
    with the message thrown.  A statement throws where the fault plan says
    so: a lost connection, or a value the driver rejects. *)
Fixpoint uploadLoop (faults : Faults) (uploadId : Z) (payments : list ParsedPayment)
    (st : Progress) : Progress * option string :=
  match payments with
  | [] => (st, None)
  | payment :: rest =>
      let matchResult :=
        autoMatchPaymentToTenant true (fun k => faults (issued st + k)%nat)
                                 (core (store st)) payment in
      match faults (S (issued st)) with
      | Some msg =>
          ({| store := store st; issued := S (S (issued st));
              matchedSoFar := matchedSoFar st;
              unmatchedSoFar := unmatchedSoFar st |}, Some msg)
      | None =>
          uploadLoop faults uploadId rest
            {| store := insertImportedPayment (importedRow uploadId payment matchResult)
                                              (store st);
               issued := S (S (issued st));
               matchedSoFar :=
                 if isMatched (PaymentMatching.matchStatus matchResult)
                 then matchedSoFar st + 1 else matchedSoFar st;
               unmatchedSoFar :=
                 if isMatched (PaymentMatching.matchStatus matchResult)
                 then unmatchedSoFar st else unmatchedSoFar st + 1 |}
      end
  end.

Record UploadRun := { outcome : UploadResult; stored : UploadDb }.

Definition failed (message : string) : UploadResult :=
  {| success := false; matchedCount := 0; unmatchedCount := 0;
     error := Some message |}.

(** [processPaymentUpload(uploadId, payments)]; [available] tells whether
    [getDb()] yields a handle (the matcher obtains the same handle). *)
Definition processPaymentUpload (available : bool) (faults : Faults) (uploadId : Z)
    (payments : list ParsedPayment) (d : UploadDb) : UploadRun :=
  if negb available then
    {| outcome := failed "Database not available"; stored := d |}
  else
    match uploadLoop faults uploadId payments
            {| store := d; issued := 0; matchedSoFar := 0; unmatchedSoFar := 0 |} with
    | (st, Some msg) => {| outcome := failed msg; stored := store st |}
    | (st, None) =>
        match faults (issued st) with
        | Some msg => {| outcome := failed msg; stored := store st |}
        | None =>
            {| outcome := {| success := true;
                             matchedCount := matchedSoFar st;
                             unmatchedCount := unmatchedSoFar st;
                             error := None |};
               stored := updateUploadCounts uploadId (matchedSoFar st)
                                            (unmatchedSoFar st) (store st) |}
        end
    end.

(** The row stored for a payment: the fields of the payment, the upload
    it belongs to, and the outcome of the matcher on the tenants of the
    store, or the matcher's empty outcome when its query failed. *)
Definition storedFor (uploadId : Z) (d : UploadDb) (payment : ParsedPayment)
    (row : ImportedPayment.t) : Prop :=
  exists matchResult,
    (matchResult = matchAgainst (tenants (core d)) payment \/ matchResult = noResult) /\
    exists i, row = setImportedId i (importedRow uploadId payment matchResult).

Definition countMatched (rows : list ImportedPayment.t) : Z :=
  Z.of_nat (List.length (filter (fun r => isMatched (ImportedPayment.matchStatus r)) rows)).

End PaymentUpload.

Module UploadSamples.
Import Schema Store PaymentMatching PaymentUpload.

Definition db : UploadDb :=
  {| core := MatchingSamples.dbTenants;
     importedPayments := [];
     paymentUploads := [{| Upload.id := 7; Upload.matchedCount := 0;
                           Upload.unmatchedCount := 0 |}];
     nextImportedPaymentId := 1 |}.

Definition payments : list ParsedPayment :=
  [MatchingSamples.payment "John Doe" None;
   MatchingSamples.payment "Nobody" None;
   MatchingSamples.payment "Somebody" (Some "0798 765 432")].

(** The fourth statement of the call, the insert of the second payment,
    throws. *)
Definition secondInsertFails : Faults :=
  fun k => if (k =? 3)%nat then Some "Connection lost" else None.

(** The first statement of the call, the tenant query for the first
    payment, throws. *)
Definition firstLookupFails : Faults :=
  fun k => if (k =? 0)%nat then Some "Connection lost" else None.

End UploadSamples.

(* ================================================================== *)
(** * Stages of a generation run *)
(* ================================================================== *)

(** The states a generation run takes the store through. *)
Module GenerationStages.
Import Schema Store InvoiceGeneration Stages JSString.

(** The log row of lines 35-40 and the one of the [catch] block. *)
Definition startedLog (env : Env) : GenerationLog.t :=
  {| GenerationLog.id := 0;
     GenerationLog.invoicesGenerated := 0;
     GenerationLog.propertiesAffected := 0;
     GenerationLog.status := PendingReview;
     GenerationLog.details := Some ("Invoice generation for " ++ monthYear (now env)) |}.

Definition failedLog (e : string) : GenerationLog.t :=
  {| GenerationLog.id := 0;
     GenerationLog.invoicesGenerated := 0;
     GenerationLog.propertiesAffected := 0;
     GenerationLog.status := Failed;
     GenerationLog.details := Some ("Invoice generation failed: " ++ e) |}.

Definition appendLog (row : GenerationLog.t) (s : Db) : Db :=
  withLogs s (invoiceGenerationLogs s ++ [setLogId (nextLogId s) row]) (nextLogId s + 1).

(** The store after the insert of the log row, after the insert of the
    pending invoices and after the update of the log row of a run that
    started from [d]. *)
Definition afterLog (env : Env) (d : Db) : Db := appendLog (startedLog env) d.

Definition afterRows (env : Env) (d : Db) : Db :=
  withPending (afterLog env d)
    (pendingInvoices d ++ generatedRows env d)
    (nextPendingInvoiceId d
     + Z.of_nat (List.length (generateRows env (logIdOf d) 0 (activeLeasesOf d)))).

Definition afterCounts (env : Env) (d : Db) : Db :=
  withLogs (afterRows env d)
    (map (fun r => if GenerationLog.id r =? logIdOf d
                   then setCounts (Z.of_nat (List.length (activeLeasesOf d)))
                                  (Z.of_nat (List.length (affectedProperties (activeLeasesOf d))))
                                  r
                   else r)
         (invoiceGenerationLogs (afterLog env d)))
    (nextLogId d + 1).

(** The store after the [catch] block entered with the message [e] in
    the state [s], when its insert is the statement [k] of the call. *)
Definition afterCatch (env : Env) (k : nat) (e : string) (s : Db) : Db :=
  match faults env k with
  | None => appendLog (failedLog e) s
  | Some _ => s
  end.

(** The seven ways a generation run can end: the value returned and the
    store left behind. *)
Inductive GenerateRun (env : Env) (d : Db) : option GenerateResult -> Db -> Prop :=
| GenerateUnavailable :
    dbAvailable env = false ->
    GenerateRun env d None d
| GenerateNoLease :
    dbAvailable env = true -> faults env 0%nat = None ->
    activeLeasesOf d = [] ->
    GenerateRun env d None d
| GenerateSelectFailed (e : string) :
    dbAvailable env = true -> faults env 0%nat = Some e ->
    GenerateRun env d (Some (GenerateFailure e)) (afterCatch env 1 e d)
| GenerateLogFailed (e : string) :
    dbAvailable env = true -> faults env 0%nat = None ->
    activeLeasesOf d <> [] -> faults env 1%nat = Some e ->
    GenerateRun env d (Some (GenerateFailure e)) (afterCatch env 2 e d)
| GenerateInsertFailed (e : string) :
    dbAvailable env = true -> faults env 0%nat = None ->
    activeLeasesOf d <> [] -> faults env 1%nat = None ->
    faults env 2%nat = Some e ->
    GenerateRun env d (Some (GenerateFailure e)) (afterCatch env 3 e (afterLog env d))
| GenerateUpdateFailed (e : string) :
    dbAvailable env = true -> faults env 0%nat = None ->
    activeLeasesOf d <> [] -> faults env 1%nat = None ->
    faults env 2%nat = None -> faults env 3%nat = Some e ->
    GenerateRun env d (Some (GenerateFailure e)) (afterCatch env 4 e (afterRows env d))
| GenerateDone :
    dbAvailable env = true -> faults env 0%nat = None ->
    activeLeasesOf d <> [] -> faults env 1%nat = None ->
    faults env 2%nat = None -> faults env 3%nat = None ->
    GenerateRun env d
      (Some (GenerateSuccess
               (Z.of_nat (List.length (activeLeasesOf d)))
               (Z.of_nat (List.length (affectedProperties (activeLeasesOf d))))
               (logIdOf d)))
      (afterCounts env d).



End GenerationStages.

Module GenerationSamples.
Import Schema Store InvoiceGeneration.

(** The surroundings of [Samples.env] with a store that fails on the
    fourth statement of a call (the update of the log row of a
    generation run). *)
Definition envUpdateFails : Env :=
  {| dbAvailable := true; now := 20100;
     faults := fun k => if (k =? 3)%nat then Some "Connection lost" else None;
     random := fun i => N.of_nat (i * 7 + 8) |}.

(** Random bytes that repeat with period 6: every invoice of a run gets
    the same six symbols. *)
Definition envRepeating : Env :=
  {| dbAvailable := true; now := 20100; faults := noFaults;
     random := fun i => N.of_nat (i mod 6) |}.

End GenerationSamples.

(* ================================================================== *)
(** * shared/currency.ts and the amounts of a feed *)
(* ================================================================== *)

(** [parseKES] of [shared/currency.ts] (lines 59-69).  [formatKES] and
    [formatKESNumber] print through [Intl.NumberFormat], whose output
    depends on the locale data of the run time, and are not modelled. *)
Module Currency.
Import JSString JSNumber.

(** [s.replace(/KSh\s?/g, "")]: every "KSh", with the white space
    character that follows it if there is one, is removed, scanning from
    the left. *)
Fixpoint removeKSh (l : list ascii) : list ascii :=
  match l with
  | [] => []
  | c :: r =>
      if Ascii.eqb c "K" then
        match r with
        | c2 :: c3 :: r3 =>
            if Ascii.eqb c2 "S" && Ascii.eqb c3 "h" then
              match r3 with
              | w :: r4 => if isWhiteSpace w then removeKSh r4 else removeKSh r3
              | [] => []
              end
            else c :: removeKSh r
        | _ => c :: removeKSh r
        end
      else c :: removeKSh r
  end.

(** [s.replace(/,/g, "")]. *)
Definition removeCommas (l : list ascii) : list ascii :=
  filter (fun c => negb (Ascii.eqb c ",")) l.

Definition isNaN (x : number) : bool :=
  match x with S754_nan => true | _ => false end.

(** [parseKES(formatted)]. *)
Definition parseKES (formatted : string) : number :=
  let cleaned := trim (ofChars (removeCommas (removeKSh (chars formatted)))) in
  let num := parseFloat cleaned in
  if isNaN num then zero else num.

(** The characters of a formatted amount: digits, the separators, a
    sign. *)
Definition isAmountChar (c : ascii) : bool :=
  isDigit c || Ascii.eqb c "," || Ascii.eqb c "." || Ascii.eqb c "-" || Ascii.eqb c "+".

End Currency.

Module FeedVocabulary.
Import JSString.

(** A character with which no number that [parseFloat] reads can
    start: not a digit, a sign, a decimal point, the I of "Infinity" or
    white space. *)
Definition cannotStartNumber (c : ascii) : bool :=
  negb (isDigit c || Ascii.eqb c "-" || Ascii.eqb c "+" || Ascii.eqb c "."
        || Ascii.eqb c "I" || isWhiteSpace c).

(** An amount field that holds no number: missing, empty, or starting
    with such a character. *)
Definition notAnAmount (field : option string) : Prop :=
  match field with
  | None => True
  | Some s => match chars s with
              | [] => True
              | c :: _ => cannotStartNumber c = true
              end
  end.

End FeedVocabulary.

(* ================================================================== *)
(** * Lemmas                                                            *)
(* ================================================================== *)

Module JSDateFacts.
Import JSDate.

Lemma DaysInYear_cases y : DaysInYear y = 365 \/ DaysInYear y = 366.
Proof.
  unfold DaysInYear.
  repeat match goal with |- context [negb ?b] => destruct b; cbn end; auto.
Qed.

Lemma DayFromYear_succ y : DayFromYear (y + 1) = DayFromYear y + DaysInYear y.
Proof.
  unfold DayFromYear, DaysInYear.
  repeat match goal with
         | |- context [?a =? ?b] => destruct (Z.eqb_spec a b); cbn [negb]
         end; Z.div_mod_to_equations; lia.
Qed.

Lemma DayFromYear_mono y y' : y <= y' -> DayFromYear y <= DayFromYear y'.
Proof.
  intros H. unfold DayFromYear. Z.div_mod_to_equations. lia.
Qed.

(** The defining property of [YearFromTime] in ECMAScript. *)
Lemma YearFromTime_spec d :
  DayFromYear (YearFromTime d) <= d < DayFromYear (YearFromTime d + 1).
Proof.
  unfold YearFromTime.
  set (y := 1970 + 400 * d / 146097).
  assert (Hlo : DayFromYear (y - 1) <= d) by (unfold DayFromYear, y; Z.div_mod_to_equations; lia).
  assert (Hhi : d < DayFromYear (y + 2)) by (unfold DayFromYear, y; Z.div_mod_to_equations; lia).
  destruct (Z.ltb_spec d (DayFromYear y)).
  - replace (y - 1 + 1) with y by lia. lia.
  - destruct (Z.leb_spec (DayFromYear (y + 1)) d).
    + replace (y + 1 + 1) with (y + 2) by lia. lia.
    + lia.
Qed.

Lemma YearFromTime_unique d y :
  DayFromYear y <= d < DayFromYear (y + 1) -> YearFromTime d = y.
Proof.
  intros [Hlo Hhi].
  pose proof (YearFromTime_spec d) as [Hlo' Hhi'].
  destruct (Z.lt_trichotomy (YearFromTime d) y) as [Hlt | [Heq | Hgt]]; auto.
  - pose proof (DayFromYear_mono (YearFromTime d + 1) y). lia.
  - pose proof (DayFromYear_mono (y + 1) (YearFromTime d)). lia.
Qed.

Lemma MonthFromTime_range d : 0 <= MonthFromTime d <= 11.
Proof.
  unfold MonthFromTime.
  repeat match goal with |- context [?a <? ?b] => destruct (a <? b) end; lia.
Qed.

Lemma daysInMonth_range y mn : 28 <= daysInMonth y mn <= 31.
Proof.
  unfold daysInMonth.
  destruct mn as [| p | p]; try lia.
  destruct (DaysInYear y =? 366);
    do 4 (try (destruct p as [p | p |]; try lia)).
Qed.

Ltac split_month mn :=
  let H := fresh "Hmn" in
  assert (H : mn = 0 \/ mn = 1 \/ mn = 2 \/ mn = 3 \/ mn = 4 \/ mn = 5 \/
              mn = 6 \/ mn = 7 \/ mn = 8 \/ mn = 9 \/ mn = 10 \/ mn = 11) by lia;
  repeat (destruct H as [H | H]); subst mn.

Ltac decide_tests :=
  repeat match goal with
         | |- context [?a <? ?b] => destruct (Z.ltb_spec a b); try lia
         | |- context [?a =? ?b] => destruct (Z.eqb_spec a b); try lia
         end.

(** The day [MakeDay] builds lies in the year, month and day asked for,
    as long as the day exists in that month. *)
Lemma MakeDay_fields y mn date :
  0 <= mn <= 11 -> 1 <= date <= daysInMonth y mn ->
  YearFromTime (MakeDay y mn date) = y /\
  MonthFromTime (MakeDay y mn date) = mn /\
  DateFromTime (MakeDay y mn date) = date.
Proof.
  intros Hmn Hdate.
  assert (Hdiv : mn / 12 = 0) by (apply Z.div_small; lia).
  assert (Hmod : mn mod 12 = mn) by (apply Z.mod_small; lia).
  assert (Hy : YearFromTime (MakeDay y mn date) = y).
  { apply YearFromTime_unique. rewrite DayFromYear_succ.
    unfold MakeDay. rewrite Hdiv, Hmod, Z.add_0_r.
    unfold daysInMonth in Hdate.
    destruct (DaysInYear_cases y) as [E | E]; rewrite E in *; cbn in Hdate |- *;
      split_month mn; cbn in Hdate |- *; lia. }
  split; [exact Hy |].
  unfold DateFromTime, MonthFromTime, DayWithinYear, InLeapYear.
  rewrite Hy. unfold MakeDay. rewrite Hdiv, Hmod, Z.add_0_r.
  unfold daysInMonth in Hdate.
  destruct (DaysInYear_cases y) as [E | E]; rewrite E in *; cbn in Hdate |- *;
    split_month mn; cbn in Hdate |- *; decide_tests; split; lia.
Qed.

(** Day 0 of the following month is the last day of the month. *)
Lemma MakeDay_day0 y mn :
  0 <= mn <= 11 -> MakeDay y (mn + 1) 0 = MakeDay y mn (daysInMonth y mn).
Proof.
  intros Hmn. split_month mn; unfold MakeDay, daysInMonth;
    repeat match goal with
           | |- context [?a / 12] =>
               let v := eval compute in (a / 12) in change (a / 12) with v
           | |- context [?a mod 12] =>
               let v := eval compute in (a mod 12) in change (a mod 12) with v
           end;
    rewrite ?Z.add_0_r, ?DayFromYear_succ; cbn [monthStart];
    destruct (DaysInYear_cases y) as [E | E]; rewrite ?E;
    change (365 =? 366) with false; change (366 =? 366) with true;
    cbn iota; lia.
Qed.

(** The month after [mn] of year [y], as [MakeDay] carries it. *)
Lemma MakeDay_next_month y mn date :
  0 <= mn <= 11 ->
  MakeDay y (mn + 1) date = MakeDay (y + (mn + 1) / 12) ((mn + 1) mod 12) date.
Proof.
  intros Hmn. unfold MakeDay.
  assert (Hr : 0 <= (mn + 1) mod 12 < 12) by (apply Z.mod_pos_bound; lia).
  rewrite (Z.div_small ((mn + 1) mod 12)), (Z.mod_small ((mn + 1) mod 12)) by lia.
  rewrite Z.add_0_r. reflexivity.
Qed.

Lemma newDate_MakeDay y mn date :
  ~ (0 <= y <= 99) -> newDate y mn date = MakeDay y mn date.
Proof.
  intros H. unfold newDate.
  destruct (Z.leb_spec 0 y); destruct (Z.leb_spec y 99); cbn; auto; lia.
Qed.

End JSDateFacts.

(* ================================================================== *)
(** * Runs of the invoice engine                                       *)
(* ================================================================== *)

Module EngineFacts.
Import Schema Store InvoiceGeneration Stages JSString.

Lemma length_zero_nil {A} (l : list A) : (List.length l =? 0)%nat = true -> l = [].
Proof. destruct l; cbn; congruence. Qed.

Lemma length_nonzero {A} (l : list A) : (List.length l =? 0)%nat = false -> l <> [].
Proof. destruct l; cbn; congruence. Qed.

Lemma finalize_run env logId d :
  FinalizeRun env logId d (finalizePendingInvoices env logId d).
Proof.
  unfold finalizePendingInvoices.
  destruct (dbAvailable env) eqn:Hav; cbn [negb].
  2:{ apply FinalizeNothing; auto. }
  unfold run, tryCatch, finalizeBody, bind, statement, start, ret.
  cbn [db issued trail].
  destruct (faults env 0%nat) as [m0 |] eqn:F0.
  { apply FinalizeNothing; eauto. intros; discriminate. }
  unfold selectPending at 1. cbn [db issued trail].
  fold (draftsOf logId d).
  destruct (List.length (draftsOf logId d) =? 0)%nat eqn:Hlen.
  { apply FinalizeNothing; auto. intros _. right. split; auto.
    now apply length_zero_nil. }
  apply length_nonzero in Hlen. cbn [db issued trail].
  destruct (faults env 1%nat) as [m1 |] eqn:F1.
  { apply FinalizeNothing; eauto. intros; discriminate. }
  unfold insertInvoices.
  destruct (distinct _) eqn:Hd.
  2:{ apply FinalizeNothing; eauto. intros; discriminate. }
  cbn [db issued trail].
  fold (afterInsert logId d).
  destruct (faults env 2%nat) as [m2 |] eqn:F2.
  { now apply FinalizeInserted. }
  unfold deletePending. cbn [db issued trail].
  change (pendingInvoices (afterInsert logId d)) with (pendingInvoices d).
  change (nextPendingInvoiceId (afterInsert logId d)) with (nextPendingInvoiceId d).
  fold (afterDelete logId d).
  destruct (faults env 3%nat) as [m3 |] eqn:F3.
  { now apply FinalizeDeleted. }
  unfold updateLog. cbn [db issued trail].
  change (invoiceGenerationLogs (afterDelete logId d)) with (invoiceGenerationLogs d).
  change (nextLogId (afterDelete logId d)) with (nextLogId d).
  rewrite length_map.
  pose proof (FinalizeDone env logId d Hlen Hav) as H.
  unfold afterFinalized in H at 1 2. rewrite length_map in H. exact H.
Qed.

Lemma skipn_length_app {A} (l l' : list A) :
  skipn (List.length l) (l ++ l')%list = l'.
Proof. induction l; cbn; auto. Qed.

Lemma skipn_length_self {A} (l : list A) : skipn (List.length l) l = [].
Proof. induction l; cbn; auto. Qed.

Lemma assignIds_carriesOver next ps :
  Forall2 carriesOver ps (assignIds setInvoiceId next (map toInvoice ps)).
Proof.
  revert next. induction ps as [| p ps IH]; intros next; cbn [map assignIds].
  - constructor.
  - constructor; [| apply IH].
    unfold carriesOver. cbn. repeat split; reflexivity.
Qed.

Lemma filter_filter_negb {A} (f : A -> bool) (l : list A) :
  filter f (filter (fun x => negb (f x)) l) = [].
Proof.
  induction l as [| x l IH]; cbn; auto.
  destruct (f x) eqn:E; cbn; auto. now rewrite E.
Qed.

Ltac unchanged_pending :=
  unfold insertLog, updateLog;
  cbn [final result db trail issued withLogs pendingInvoices];
  split; [reflexivity | let H := fresh in intros ? ? ? H; discriminate H].

Lemma generate_run env d :
  let r := generateMonthlyInvoices env d in
  (pendingInvoices (final r) = pendingInvoices d /\
   forall n k l, result r <> Some (GenerateSuccess n k l))
  \/
  (pendingInvoices (final r) = (pendingInvoices d ++ generatedRows env d)%list /\
   activeLeasesOf d <> [] /\
   (result r = Some (GenerateSuccess
                       (Z.of_nat (List.length (activeLeasesOf d)))
                       (Z.of_nat (List.length (affectedProperties (activeLeasesOf d))))
                       (logIdOf d))
    \/ exists e, result r = Some (GenerateFailure e))).
Proof.
  cbv zeta. unfold generateMonthlyInvoices.
  destruct (dbAvailable env) eqn:Hav; cbn [negb].
  2:{ left. unchanged_pending. }
  unfold run, tryCatch, generationBody, generationFailed, tryCatch, bind,
    statement, start, ret.
  cbn [db issued trail].
  destruct (faults env 0%nat) as [m0 |] eqn:F0.
  { left. cbn [db issued trail]. destruct (faults env 1%nat); unchanged_pending. }
  unfold selectActiveLeases. cbn [db issued trail].
  fold (activeLeasesOf d).
  destruct (List.length (activeLeasesOf d) =? 0)%nat eqn:Hlen.
  { left. unchanged_pending. }
  apply length_nonzero in Hlen. cbn [db issued trail].
  destruct (faults env 1%nat) as [m1 |] eqn:F1.
  { left. cbn [db issued trail]. destruct (faults env 2%nat); unchanged_pending. }
  unfold insertLog. cbn [db issued trail].
  fold (logIdOf d).
  assert (Hlenrows : forall pos ls,
             List.length (generateRows env (logIdOf d) pos ls) = List.length ls).
  { intros pos ls; revert pos; induction ls; intros; cbn [generateRows List.length]; auto. }
  assert (Hrows : (0 <? List.length (generateRows env (logIdOf d) 0 (activeLeasesOf d)))%nat = true).
  { rewrite Hlenrows. destruct (activeLeasesOf d); [congruence | reflexivity]. }
  rewrite Hrows. cbn [db issued trail].
  destruct (faults env 2%nat) as [m2 |] eqn:F2.
  { left. cbn [db issued trail]. destruct (faults env 3%nat); unchanged_pending. }
  unfold insertPendingInvoices. cbn [db issued trail].
  right. split; [| split; [exact Hlen |]].
  - destruct (faults env 3%nat) as [m3 |] eqn:F3; cbn [db issued trail].
    + destruct (faults env 4%nat);
        unfold insertLog, updateLog;
        cbn [final result db trail issued withLogs withPending pendingInvoices];
        reflexivity.
    + unfold updateLog.
      cbn [final result db trail issued withLogs withPending pendingInvoices].
      reflexivity.
  - destruct (faults env 3%nat) as [m3 |] eqn:F3; cbn [db issued trail].
    + right. destruct (faults env 4%nat);
        unfold insertLog, updateLog; cbn [final result db trail issued]; eauto.
    + left. unfold updateLog. cbn [final result db trail issued].
      rewrite Hlenrows. reflexivity.
Qed.

Lemma generateRows_each env logId pos next ls :
  Forall2 (fun lease p => exists i q, p = setPendingId i (pendingInvoiceFor env logId q lease))
          ls (assignIds setPendingId next (generateRows env logId pos ls)).
Proof.
  revert pos next. induction ls as [| l ls IH]; intros; cbn [generateRows assignIds].
  - constructor.
  - constructor; [eauto | apply IH].
Qed.

(** A finalization that reports success went through all four
    statements. *)
Lemma finalize_success env logId d n :
  result (finalizePendingInvoices env logId d) = Some (FinalizeSuccess n) ->
  final (finalizePendingInvoices env logId d) = afterFinalized logId d /\
  n = Z.of_nat (List.length (draftsOf logId d)).
Proof.
  destruct (finalize_run env logId d) as [res h Hres _ _ | e _ | e _ | _ _];
    cbn [result final]; intros H; try discriminate.
  - destruct Hres as [-> | [e ->]]; discriminate.
  - injection H as <-. split; reflexivity.
Qed.

Lemma draftsOf_afterFinalized logId d : draftsOf logId (afterFinalized logId d) = [].
Proof.
  unfold draftsOf.
  cbn [afterFinalized afterDelete afterInsert withLogs withPending withInvoices
       pendingInvoices].
  apply filter_filter_negb.
Qed.

Lemma created_cases env d :
  created env d = [] \/ created env d = generatedRows env d.
Proof.
  unfold created.
  destruct (generate_run env d) as [[H _] | [H _]]; rewrite H.
  - left. apply skipn_length_self.
  - right. apply skipn_length_app.
Qed.

Lemma created_in env d p :
  In p (created env d) ->
  exists i q lease, p = setPendingId i (pendingInvoiceFor env (logIdOf d) q lease).
Proof.
  destruct (created_cases env d) as [-> | ->]; [intros [] |].
  unfold generatedRows.
  generalize (generateRows_each env (logIdOf d) 0%nat (nextPendingInvoiceId d)
                                (activeLeasesOf d)).
  generalize (assignIds setPendingId (nextPendingInvoiceId d)
                        (generateRows env (logIdOf d) 0 (activeLeasesOf d))).
  intros rows HF. induction HF as [| lease r ls rs (i & q & ->) _ IH].
  - intros [].
  - intros [<- | Hin]; eauto.
Qed.

End EngineFacts.

(* ================================================================== *)
(** * The invoice lifecycle engine: the statements of the specification *)
(* ================================================================== *)

Import Schema Store InvoiceGeneration Stages.
Import JSDateFacts EngineFacts.

(** C4.  Whatever the current date (outside the years 0 to 99, which
    [new Date(y, m, d)] reads as 1900 to 1999), every pending invoice a
    generation run creates is due on the 10th of the month after the
    billing month, in the next year when the billing month is December;
    its period starts on day 1 of the billing month and ends on the last
    calendar day of that month: a day numbered 28 to 31, as many as the
    month has in that year, whose next day is the 1st of the following
    month. *)
Theorem generated_invoice_dates env d p :
  let currentYear := JSDate.getFullYear (now env) in
  let currentMonth := JSDate.getMonth (now env) in
  ~ (0 <= currentYear <= 99) ->
  In p (created env d) ->
  (JSDate.getDate (PendingInvoice.dueDate p) = 10 /\
   (currentMonth < 11 ->
    JSDate.getMonth (PendingInvoice.dueDate p) = currentMonth + 1 /\
    JSDate.getFullYear (PendingInvoice.dueDate p) = currentYear) /\
   (currentMonth = 11 ->
    JSDate.getMonth (PendingInvoice.dueDate p) = 0 /\
    JSDate.getFullYear (PendingInvoice.dueDate p) = currentYear + 1)) /\
  (JSDate.getDate (PendingInvoice.periodStart p) = 1 /\
   JSDate.getMonth (PendingInvoice.periodStart p) = currentMonth /\
   JSDate.getFullYear (PendingInvoice.periodStart p) = currentYear) /\
  (JSDate.getMonth (PendingInvoice.periodEnd p) = currentMonth /\
   JSDate.getFullYear (PendingInvoice.periodEnd p) = currentYear /\
   JSDate.getDate (PendingInvoice.periodEnd p)
     = JSDate.daysInMonth currentYear currentMonth /\
   28 <= JSDate.getDate (PendingInvoice.periodEnd p) <= 31 /\
   JSDate.getDate (PendingInvoice.periodEnd p + 1) = 1 /\
   JSDate.getMonth (PendingInvoice.periodEnd p + 1) = (currentMonth + 1) mod 12).
Proof.
  intros cy cm Hcy Hin.
  apply created_in in Hin as (i & q & lease & ->).
  cbn [setPendingId pendingInvoiceFor PendingInvoice.dueDate
       PendingInvoice.periodStart PendingInvoice.periodEnd].
  fold cy cm.
  assert (Hcm : 0 <= cm <= 11) by apply MonthFromTime_range.
  unfold JSDate.getDate, JSDate.getMonth, JSDate.getFullYear.
  rewrite !newDate_MakeDay by assumption.
  pose proof (daysInMonth_range cy cm) as Hdim.
  split; [| split].
  - (* due date *)
    rewrite MakeDay_next_month by assumption.
    assert (Hr : 0 <= (cm + 1) mod 12 <= 11)
      by (pose proof (Z.mod_pos_bound (cm + 1) 12); lia).
    pose proof (daysInMonth_range (cy + (cm + 1) / 12) ((cm + 1) mod 12)) as Hd.
    destruct (MakeDay_fields (cy + (cm + 1) / 12) ((cm + 1) mod 12) 10 Hr)
      as (Hy & Hm & Hdt); [lia |].
    rewrite Hy, Hm, Hdt.
    split; [reflexivity |]. split; intros Hc.
    + rewrite Z.mod_small, Z.div_small by lia. lia.
    + subst cm. rewrite Hc. cbn. lia.
  - (* period start *)
    destruct (MakeDay_fields cy cm 1 Hcm) as (Hy & Hm & Hdt); [lia |].
    now rewrite Hy, Hm, Hdt.
  - (* period end *)
    rewrite MakeDay_day0 by assumption.
    destruct (MakeDay_fields cy cm (JSDate.daysInMonth cy cm) Hcm)
      as (Hy & Hm & Hdt); [lia |].
    rewrite Hy, Hm, Hdt.
    repeat (split; [reflexivity || lia |]).
    rewrite <- MakeDay_day0 by assumption.
    replace (JSDate.MakeDay cy (cm + 1) 0 + 1) with (JSDate.MakeDay cy (cm + 1) 1)
      by (unfold JSDate.MakeDay; lia).
    rewrite MakeDay_next_month by assumption.
    assert (Hr : 0 <= (cm + 1) mod 12 <= 11)
      by (pose proof (Z.mod_pos_bound (cm + 1) 12); lia).
    pose proof (daysInMonth_range (cy + (cm + 1) / 12) ((cm + 1) mod 12)) as Hd.
    destruct (MakeDay_fields (cy + (cm + 1) / 12) ((cm + 1) mod 12) 1 Hr)
      as (Hy' & Hm' & Hdt'); [lia |].
    now rewrite Hm', Hdt'.
Qed.

(** A run in January 2025 on the sample store. *)
Lemma generated_invoice_dates_witness :
  ~ (0 <= JSDate.getFullYear (now Samples.env) <= 99) /\
  (forall p, In p (created Samples.env Samples.dbLeases) ->
     JSDate.getDate (PendingInvoice.dueDate p) = 10 /\
     JSDate.getDate (PendingInvoice.periodStart p) = 1 /\
     JSDate.getDate (PendingInvoice.periodEnd p) = 31).
Proof.
  assert (H : ~ (0 <= JSDate.getFullYear (now Samples.env) <= 99))
    by (vm_compute; intros [_ H]; apply H; reflexivity).
  split; [exact H |].
  intros p Hin.
  pose proof (generated_invoice_dates Samples.env Samples.dbLeases p H Hin)
    as ((Hdue & _) & (Hstart & _) & (_ & _ & Hend & _)).
  repeat split; assumption.
Defined.




(** C2.  When [finalizePendingInvoices(logId)] reports success, the
    invoices it added correspond one to one, in order, to the pending
    invoices tagged with [logId]: each carries over the draft's rent,
    service charge, utilities and total amounts (and its lease, number,
    dates and notes) unchanged, with paidAmount "0.00" and status
    unpaid; the count reported is the number of drafts, and afterwards
    no pending invoice tagged with [logId] is left, the other drafts
    being untouched. *)
Theorem finalize_round_trip env logId d n :
  result (finalizePendingInvoices env logId d) = Some (FinalizeSuccess n) ->
  n = Z.of_nat (List.length (draftsOf logId d)) /\
  invoices (final (finalizePendingInvoices env logId d))
    = (invoices d ++ finalized env logId d)%list /\
  Forall2 carriesOver (draftsOf logId d) (finalized env logId d) /\
  draftsOf logId (final (finalizePendingInvoices env logId d)) = [] /\
  pendingInvoices (final (finalizePendingInvoices env logId d))
    = filter (fun p => negb (ofLog logId p)) (pendingInvoices d).
Proof.
  intros H. destruct (finalize_success env logId d n H) as [Hfinal ->].
  unfold finalized. rewrite Hfinal.
  split; [reflexivity |].
  cbn [afterFinalized afterDelete afterInsert withLogs withPending withInvoices
       invoices pendingInvoices].
  rewrite skipn_length_app.
  split; [reflexivity |].
  split; [apply assignIds_carriesOver |].
  split; [apply draftsOf_afterFinalized | reflexivity].
Qed.

Lemma finalize_round_trip_witness :
  result (finalizePendingInvoices Samples.env 1 Samples.dbDrafts)
    = Some (FinalizeSuccess 2) /\
  Forall2 carriesOver (draftsOf 1 Samples.dbDrafts)
          (finalized Samples.env 1 Samples.dbDrafts) /\
  draftsOf 1 (final (finalizePendingInvoices Samples.env 1 Samples.dbDrafts)) = [].
Proof.
  assert (H : result (finalizePendingInvoices Samples.env 1 Samples.dbDrafts)
              = Some (FinalizeSuccess 2)) by (vm_compute; reflexivity).
  split; [exact H |].
  pose proof (finalize_round_trip _ _ _ _ H) as (_ & _ & HF & Hnone & _).
  split; assumption.
Defined.

(** C3, as amended.  After a finalization of [logId] that reported
    success, a second call for the same [logId] finds no pending invoice:
    it leaves the whole store, and so the invoices of the first call, as
    they are, and it never reports a success; when the store answers, it
    returns [undefined]. *)
Theorem second_finalize_changes_nothing env1 env2 logId d n :
  result (finalizePendingInvoices env1 logId d) = Some (FinalizeSuccess n) ->
  let d1 := final (finalizePendingInvoices env1 logId d) in
  let second := finalizePendingInvoices env2 logId d1 in
  final second = d1 /\
  invoices (final second) = invoices d1 /\
  (forall k, result second <> Some (FinalizeSuccess k)) /\
  (dbAvailable env2 = false \/ faults env2 0%nat = None -> result second = None).
Proof.
  intros H d1 second.
  assert (Hnone : draftsOf logId d1 = []).
  { subst d1. destruct (finalize_success env1 logId d n H) as [-> _].
    apply draftsOf_afterFinalized. }
  assert (Hlast : dbAvailable env2 = false \/ faults env2 0%nat = None ->
                  result second = None).
  { intros Hq. subst second. unfold finalizePendingInvoices.
    destruct Hq as [Hq | Hq].
    - rewrite Hq. reflexivity.
    - destruct (dbAvailable env2); cbn [negb]; [| reflexivity].
      unfold run, tryCatch, finalizeBody, bind, statement, start, ret.
      cbn [db issued trail]. rewrite Hq.
      unfold selectPending. cbn [db issued trail].
      fold (draftsOf logId d1). rewrite Hnone. reflexivity. }
  pose proof (finalize_run env2 logId d1) as R. fold second in R.
  revert Hlast.
  destruct R as [res h Hres _ _ | e Hne | e Hne | Hne _];
    try (now destruct Hne).
  cbn [final result]. intros Hlast. repeat split.
  - intros k. destruct Hres as [-> | [e ->]]; discriminate.
  - exact Hlast.
Qed.

Lemma second_finalize_changes_nothing_witness :
  result (finalizePendingInvoices Samples.env 1 Samples.dbDrafts)
    = Some (FinalizeSuccess 2) /\
  final (finalizePendingInvoices Samples.env 1
           (final (finalizePendingInvoices Samples.env 1 Samples.dbDrafts)))
    = final (finalizePendingInvoices Samples.env 1 Samples.dbDrafts).
Proof.
  assert (H : result (finalizePendingInvoices Samples.env 1 Samples.dbDrafts)
              = Some (FinalizeSuccess 2)) by (vm_compute; reflexivity).
  split; [exact H |].
  exact (proj1 (second_finalize_changes_nothing Samples.env Samples.env 1 _ _ H)).
Defined.

(** C3, as stated, fails: the second call does not report zero invoices
    finalized, it returns [undefined]. *)
Lemma second_finalize_reports_nothing :
  let first := finalizePendingInvoices Samples.env 1 Samples.dbDrafts in
  let second := finalizePendingInvoices Samples.env 1 (final first) in
  result first = Some (FinalizeSuccess 2) /\
  result second = None /\
  result second <> Some (FinalizeSuccess 0).
Proof.
  cbv zeta. repeat split; try (vm_compute; reflexivity).
  vm_compute. discriminate.
Qed.

(** C5.  In every execution of [finalizePendingInvoices(logId)], faults
    of the store included, each state the store passes through, and the
    state it is left in, either still holds every pending invoice it
    held at the start or already holds the invoices made from the
    drafts of [logId]: the drafts are never gone before their invoices
    are in.  An abort between the two statements leaves both: with the
    sample store failing on the delete, the drafts and their invoices
    are all present at the end. *)
Theorem finalize_inserts_before_deleting env logId d :
  (forall s,
     In s (final (finalizePendingInvoices env logId d)
           :: history (finalizePendingInvoices env logId d)) ->
     pendingInvoices s = pendingInvoices d \/
     (exists made,
        invoices s = (invoices d ++ made)%list /\
        Forall2 carriesOver (draftsOf logId d) made)) /\
  (exists e,
     result (finalizePendingInvoices Samples.envDeleteFails 1 Samples.dbDrafts)
       = Some (FinalizeFailure e) /\
     draftsOf 1 (final (finalizePendingInvoices Samples.envDeleteFails 1 Samples.dbDrafts))
       = draftsOf 1 Samples.dbDrafts /\
     List.length (draftsOf 1 Samples.dbDrafts) = 2%nat /\
     Forall2 carriesOver (draftsOf 1 Samples.dbDrafts)
       (invoices (final (finalizePendingInvoices Samples.envDeleteFails 1 Samples.dbDrafts)))).
Proof.
  split.
  - assert (Hmade : exists made,
               invoices (afterInsert logId d) = (invoices d ++ made)%list /\
               Forall2 carriesOver (draftsOf logId d) made).
    { eexists. split; [reflexivity | apply assignIds_carriesOver]. }
    destruct (finalize_run env logId d) as [res h _ _ Hh | e _ | e _ | _ _];
      cbn [final history]; intros s Hs.
    + left. destruct Hs as [<- | Hs]; [reflexivity |].
      destruct Hh as [-> | ->]; [destruct Hs |].
      destruct Hs as [<- | []]. reflexivity.
    + cbn in Hs. destruct Hs as [<- | [<- | [<- | []]]]; auto.
    + cbn in Hs. destruct Hs as [<- | [<- | [<- | [<- | []]]]]; auto.
    + cbn in Hs. destruct Hs as [<- | [<- | [<- | [<- | [<- | []]]]]]; auto.
  - exists "Connection lost".
    split; [vm_compute; reflexivity |].
    split; [vm_compute; reflexivity |].
    split; [vm_compute; reflexivity |].
    assert (E : invoices (final (finalizePendingInvoices Samples.envDeleteFails 1 Samples.dbDrafts))
                = assignIds setInvoiceId 1 (map toInvoice (draftsOf 1 Samples.dbDrafts)))
      by (vm_compute; reflexivity).
    rewrite E. apply assignIds_carriesOver.
Qed.

(* ================================================================== *)
(** * The payment matching engine                                      *)
(* ================================================================== *)

Module MatchingFacts.
Import Schema Store PaymentMatching MatchingVocabulary JSString.

Lemma chars_ofChars l : chars (ofChars l) = l.
Proof. apply list_ascii_of_string_of_list_ascii. Qed.

Lemma truthy_some s : truthy (Some s) = true <-> s <> "".
Proof.
  unfold truthy. destruct (String.eqb_spec s ""); cbn; split; congruence.
Qed.

Lemma phoneMatches_iff np t :
  phoneMatches np t = true <->
  Tenant.phone t <> "" /\ normalizePhoneNumber (Tenant.phone t) = np.
Proof.
  unfold phoneMatches. rewrite andb_true_iff, truthy_some, String.eqb_eq. tauto.
Qed.

(** [find] returns the first element that passes the test. *)
Lemma find_first {A} (f : A -> bool) l x :
  find f l = Some x ->
  exists before after,
    l = (before ++ x :: after)%list /\ f x = true /\
    forall u, In u before -> f u = false.
Proof.
  induction l as [| a l IH]; cbn; [discriminate |].
  destruct (f a) eqn:E.
  - intros [= <-]. exists [], l. repeat split; auto. intros u [].
  - intros H. destruct (IH H) as (b & c & -> & Hx & Hb).
    exists (a :: b), c. repeat split; auto.
    intros u [<- | Hu]; auto.
Qed.

Lemma find_some_exists {A} (f : A -> bool) l x :
  In x l -> f x = true -> exists y, find f l = Some y.
Proof.
  induction l as [| a l IH]; cbn; [intros [] |].
  intros [<- | Hin] Hx.
  - rewrite Hx. eauto.
  - destruct (f a); eauto.
Qed.

(** The digits that [normalizePhoneNumber] keeps are the last nine of
    the digits of its argument, all of them when there are fewer. *)
Lemma normalizePhoneNumber_digits phone :
  exists dropped,
    filter isDigit (chars phone)
      = (dropped ++ chars (normalizePhoneNumber phone))%list /\
    List.length (chars (normalizePhoneNumber phone))
      = Nat.min 9 (List.length (filter isDigit (chars phone))) /\
    Forall (fun c => isDigit c = true) (chars (normalizePhoneNumber phone)).
Proof.
  unfold normalizePhoneNumber, sliceLast. rewrite chars_ofChars.
  set (ds := filter isDigit (chars phone)).
  exists (firstn (List.length ds - 9) ds).
  split; [symmetry; apply firstn_skipn |].
  split; [rewrite length_skipn; lia |].
  assert (Hall : Forall (fun c => isDigit c = true) ds).
  { apply Forall_forall. intros c Hc. apply filter_In in Hc. tauto. }
  rewrite <- (firstn_skipn (List.length ds - 9) ds) in Hall.
  apply Forall_app in Hall. tauto.
Qed.

Lemma Qgtb_lt x y : Qgtb x y = true <-> (y < x)%Q.
Proof.
  unfold Qgtb. rewrite negb_true_iff.
  split; intros H.
  - apply Qnot_le_lt. intros Hle. apply Qle_bool_iff in Hle. congruence.
  - destruct (Qle_bool x y) eqn:E; auto.
    apply Qle_bool_iff in E. exfalso. exact (Qlt_not_le _ _ H E).
Qed.

Lemma Qgtb_le x y : Qgtb x y = false <-> (x <= y)%Q.
Proof.
  unfold Qgtb. rewrite negb_false_iff. apply Qle_bool_iff.
Qed.

Lemma MathRound_le x y : (x <= y)%Q -> MathRound x <= MathRound y.
Proof.
  intros H. unfold MathRound. apply Qfloor_resp_le.
  apply Qplus_le_compat; [exact H | apply Qle_refl].
Qed.

Lemma MathRound_Z (z : Z) : MathRound (inject_Z z) = z.
Proof.
  unfold MathRound, Qfloor, Qplus, inject_Z. cbn.
  Z.div_mod_to_equations. lia.
Qed.

(** A similarity is at most 100. *)
Lemma calculateSimilarity_le_100 a b : (calculateSimilarity a b <= 100)%Q.
Proof.
  unfold calculateSimilarity.
  destruct (String.eqb _ _); [apply Qle_refl |].
  match goal with |- context [if ?c then _ else _] => destruct c eqn:E end;
    [apply Qle_refl |].
  apply Nat.eqb_neq in E.
  match goal with
  | |- context [getEditDistance ?l ?s] =>
      set (L := String.length l) in *; set (e := getEditDistance l s)
  end.
  assert (HL : (0 < inject_Z (Z.of_nat L))%Q).
  { change 0%Q with (inject_Z 0). rewrite <- Zlt_Qlt. lia. }
  assert (H1 : (inject_Z (Z.of_nat L - Z.of_nat e) / inject_Z (Z.of_nat L) <= 1)%Q).
  { apply Qle_shift_div_r; [exact HL |].
    rewrite Qmult_1_l. rewrite <- Zle_Qle. lia. }
  apply (Qmult_le_compat_r _ _ 100) in H1; [| discriminate].
  rewrite Qmult_1_l in H1. exact H1.
Qed.

Section NameLoop.
Variable payment : ParsedPayment.
Let sim := similarityTo payment.
Let Tracked := Tracked payment.

Lemma nameStep_tracked l b x :
  Tracked l b -> Tracked (l ++ [x]) (nameStep payment b x).
Proof.
  unfold Tracked, MatchingVocabulary.Tracked. cbv zeta. fold sim.
  intros [Hconf Hb]. unfold nameStep. fold sim.
  destruct (Qgtb (sim x) 60 && Qgtb (sim x) (bestSimilarity b)) eqn:E.
  - apply andb_true_iff in E as [E60 Ebest].
    apply Qgtb_lt in E60. apply Qgtb_lt in Ebest.
    split; [reflexivity |]. cbn [bestTenant bestSimilarity].
    split; [reflexivity |]. split; [exact E60 |].
    exists l, []. split; [reflexivity |]. split; [| intros u []].
    intros u Hu. destruct (bestTenant b) as [t |].
    + destruct Hb as (Hs & _ & before & after & -> & Hbefore & Hafter).
      rewrite Hs in Ebest.
      apply in_app_or in Hu as [Hu | [<- | Hu]].
      * eapply Qlt_trans; [apply Hbefore, Hu | exact Ebest].
      * exact Ebest.
      * eapply Qle_lt_trans; [apply Hafter, Hu | exact Ebest].
    + destruct Hb as [_ Hall].
      eapply Qle_lt_trans; [apply Hall, Hu | exact E60].
  - split; [exact Hconf |].
    apply andb_false_iff in E.
    destruct (bestTenant b) as [t |].
    + destruct Hb as (Hs & H60 & before & after & -> & Hbefore & Hafter).
      split; [exact Hs |]. split; [exact H60 |].
      exists before, (after ++ [x])%list.
      split; [now rewrite <- app_assoc |]. split; [exact Hbefore |].
      intros u Hu. apply in_app_or in Hu as [Hu | [<- | []]]; [now apply Hafter |].
      destruct E as [E | E]; apply Qgtb_le in E.
      * eapply Qle_trans; [exact E | apply Qlt_le_weak, H60].
      * now rewrite <- Hs.
    + destruct Hb as [-> Hall]. split; [reflexivity |].
      intros u Hu. apply in_app_or in Hu as [Hu | [<- | []]]; [now apply Hall |].
      destruct E as [E | E]; apply Qgtb_le in E; [exact E |].
      cbn [bestSimilarity noMatch] in E.
      eapply Qle_trans; [exact E | discriminate].
Qed.

Lemma bestNameMatch_tracked l : Tracked l (bestNameMatch payment l).
Proof.
  unfold bestNameMatch.
  induction l as [| x l IH] using rev_ind.
  - unfold Tracked, MatchingVocabulary.Tracked.
    cbn. split; [reflexivity |]. split; [reflexivity | intros u []].
  - rewrite fold_left_app. cbn [fold_left]. now apply nameStep_tracked.
Qed.
End NameLoop.

(** The confidence the name loop ends with lies between 0 and 100. *)
Lemma bestConfidence_range payment l :
  0 <= bestConfidence (bestNameMatch payment l) <= 100.
Proof.
  destruct (bestNameMatch_tracked payment l) as [Hc Hb]. cbv zeta in Hb. rewrite Hc.
  destruct (bestTenant _) as [t |].
  - destruct Hb as (Hs & H60 & _). rewrite Hs.
    split.
    + assert (H0 : MathRound (inject_Z 0) <= MathRound (similarityTo payment t)).
      { apply MathRound_le.
        eapply Qle_trans; [| apply Qlt_le_weak, H60]. discriminate. }
      now rewrite MathRound_Z in H0.
    + assert (H1 : MathRound (similarityTo payment t) <= MathRound (inject_Z 100)).
      { apply MathRound_le. apply calculateSimilarity_le_100. }
      now rewrite MathRound_Z in H1.
  - destruct Hb as [-> _]. cbn. lia.
Qed.

(** For names of up to 201 characters (two [varchar(100)] columns and a
    space) the binary64 similarity and the exact one pass the same test
    against the floor and round to the same confidence; for names of up
    to 40 characters any two of them compare the same way. *)
Lemma binary64_similarity_agrees :
  forallb Binary64Similarity.agreeOne (Binary64Similarity.pairsUpTo 201) = true /\
  Binary64Similarity.agreeOrder (Binary64Similarity.pairsUpTo 40) = true.
Proof. split; vm_compute; reflexivity. Qed.

End MatchingFacts.

Import PaymentMatching MatchingVocabulary MatchingFacts.

(** C6.  [normalizePhoneNumber] drops every character that is not a
    digit and keeps the last nine digits (all of them when there are
    fewer), so that "0712-345-678" and "+254 712 345 678" both become
    "712345678".  For a payment with a phone number: when some tenant
    with a phone on record has the same normalized phone, the matcher
    returns the first such tenant of the pool as matched, with
    confidence 100 and the reason "Phone number match", whatever the
    names are. *)
Theorem phone_match_wins faults d payment phone t0 :
  faults 0%nat = None ->
  phoneNumber payment = Some phone -> phone <> "" ->
  In t0 (tenants d) ->
  Tenant.phone t0 <> "" ->
  normalizePhoneNumber (Tenant.phone t0) = normalizePhoneNumber phone ->
  (forall s, exists dropped,
      filter JSString.isDigit (JSString.chars s)
        = (dropped ++ JSString.chars (normalizePhoneNumber s))%list /\
      List.length (JSString.chars (normalizePhoneNumber s))
        = Nat.min 9 (List.length (filter JSString.isDigit (JSString.chars s))) /\
      Forall (fun c => JSString.isDigit c = true)
             (JSString.chars (normalizePhoneNumber s))) /\
  normalizePhoneNumber "0712-345-678" = "712345678" /\
  normalizePhoneNumber "+254 712 345 678" = "712345678" /\
  exists before t after,
    tenants d = (before ++ t :: after)%list /\
    Tenant.phone t <> "" /\
    normalizePhoneNumber (Tenant.phone t) = normalizePhoneNumber phone /\
    (forall u, In u before ->
       Tenant.phone u = "" \/
       normalizePhoneNumber (Tenant.phone u) <> normalizePhoneNumber phone) /\
    autoMatchPaymentToTenant true faults d payment = phoneMatched t.
Proof.
  intros Hf Hphone Hne Hin Ht0 Hnorm.
  split; [apply normalizePhoneNumber_digits |].
  split; [vm_compute; reflexivity |].
  split; [vm_compute; reflexivity |].
  assert (Hm : phoneMatches (normalizePhoneNumber phone) t0 = true)
    by (apply phoneMatches_iff; auto).
  destruct (find_some_exists _ _ _ Hin Hm) as [t Hfind].
  destruct (find_first _ _ _ Hfind) as (before & after & Hl & Ht & Hbefore).
  apply phoneMatches_iff in Ht as [Ht1 Ht2].
  exists before, t, after. repeat split; auto.
  - intros u Hu. specialize (Hbefore u Hu).
    destruct (String.eqb_spec (Tenant.phone u) ""); [now left | right].
    intros E. assert (phoneMatches (normalizePhoneNumber phone) u = true)
      by (apply phoneMatches_iff; auto).
    congruence.
  - unfold autoMatchPaymentToTenant, run, bind, statement, start, ret, selectTenants.
    cbn [negb db issued trail]. rewrite Hf. cbn [result].
    unfold matchAgainst. rewrite Hphone.
    replace (JSString.truthy (Some phone)) with true
      by (symmetry; now apply truthy_some).
    rewrite Hfind. reflexivity.
Qed.

(** The payer "John Doe" pays from the phone of the second tenant of the
    sample pool, which the third tenant shares. *)
Lemma phone_match_wins_witness :
  exists t,
    In t MatchingSamples.pool /\
    autoMatchPaymentToTenant true noFaults MatchingSamples.dbTenants
      (MatchingSamples.payment "John Doe" (Some "0798 765 432"))
    = phoneMatched t.
Proof.
  destruct (phone_match_wins noFaults MatchingSamples.dbTenants
              (MatchingSamples.payment "John Doe" (Some "0798 765 432"))
              "0798 765 432"
              (MatchingSamples.tenant 3 "Janet" "Smith" "0798-765-432"))
    as (_ & _ & _ & before & t & after & Hl & _ & _ & _ & H).
  - reflexivity.
  - reflexivity.
  - discriminate.
  - cbn. auto.
  - discriminate.
  - vm_compute. reflexivity.
  - exists t. split; [| exact H].
    change MatchingSamples.pool with (tenants MatchingSamples.dbTenants).
    rewrite Hl. apply in_elt.
Defined.

(** The thresholds of the name loop, on the [try] block after the pool has
    been read. *)
Lemma matchAgainst_thresholds allTenants payment :
  noPhoneMatch allTenants payment ->
  let r := matchAgainst allTenants payment in
  let sim := similarityTo payment in
  (matchStatus r = Matched ->
   exists before t after,
     allTenants = (before ++ t :: after)%list /\
     (60 < sim t)%Q /\
     (forall u, In u before -> (sim u < sim t)%Q) /\
     (forall u, In u after -> (sim u <= sim t)%Q) /\
     70 < MathRound (sim t) /\
     tenantId r = Some (Tenant.id t) /\
     matchConfidence r = MathRound (sim t)) /\
  (forall before t after,
     allTenants = (before ++ t :: after)%list ->
     (60 < sim t)%Q ->
     (forall u, In u before -> (sim u < sim t)%Q) ->
     (forall u, In u after -> (sim u <= sim t)%Q) ->
     70 < MathRound (sim t) ->
     matchStatus r = Matched /\ matchConfidence r = MathRound (sim t)) /\
  (matchStatus r <> Matched ->
   matchStatus r = Unmatched /\ tenantId r = None /\
   matchReason r = Some "No clear match found") /\
  ((forall u, In u allTenants -> (sim u <= 70)%Q) ->
   matchStatus r = Unmatched /\
   matchReason r = Some "No clear match found").
Proof.
  intros Hno r sim.
  assert (Hr : r = matchByName payment allTenants).
  { subst r. unfold matchAgainst.
    destruct (phoneNumber payment) as [phone |] eqn:Hp; [| now destruct (JSString.truthy None)].
    destruct (JSString.truthy (Some phone)) eqn:Ht; [| reflexivity].
    rewrite (Hno phone Hp); [reflexivity |]. now apply truthy_some. }
  pose proof (bestNameMatch_tracked payment allTenants) as [Hconf Hb].
  cbv zeta in Hb. fold sim in Hb.
  assert (Hshape :
            (exists t, bestTenant (bestNameMatch payment allTenants) = Some t /\
                       70 < bestConfidence (bestNameMatch payment allTenants) /\
                       matchStatus r = Matched /\
                       tenantId r = Some (Tenant.id t) /\
                       matchConfidence r = bestConfidence (bestNameMatch payment allTenants))
            \/
            ((bestTenant (bestNameMatch payment allTenants) = None \/
              bestConfidence (bestNameMatch payment allTenants) <= 70) /\
             matchStatus r = Unmatched /\ tenantId r = None /\
             matchReason r = Some "No clear match found")).
  { rewrite Hr. unfold matchByName.
    destruct (bestTenant (bestNameMatch payment allTenants)) as [t |].
    - destruct (Z.ltb_spec 70 (bestConfidence (bestNameMatch payment allTenants))).
      + left. exists t. cbn. auto.
      + right. cbn. auto.
    - right. cbn. auto. }
  (* two tenants that are both first among the best are the same *)
  assert (Hmax : forall before t after,
             allTenants = (before ++ t :: after)%list ->
             (60 < sim t)%Q ->
             (forall u, In u before -> (sim u < sim t)%Q) ->
             (forall u, In u after -> (sim u <= sim t)%Q) ->
             exists t', bestTenant (bestNameMatch payment allTenants) = Some t' /\
                        (sim t' == sim t)%Q).
  { intros before t after Hl H60 Hbefore Hafter.
    assert (Hin : In t allTenants) by (rewrite Hl; apply in_elt).
    destruct (bestTenant _) as [t' |].
    - exists t'. split; [reflexivity |].
      destruct Hb as (_ & _ & before' & after' & Hl' & Hbefore' & Hafter').
      assert (Hin' : In t' allTenants) by (rewrite Hl'; apply in_elt).
      apply Qle_antisym.
      + rewrite Hl in Hin'.
        apply in_app_or in Hin' as [Hu | [<- | Hu]];
          [apply Qlt_le_weak, Hbefore, Hu | apply Qle_refl | apply Hafter, Hu].
      + rewrite Hl' in Hin.
        apply in_app_or in Hin as [Hu | [<- | Hu]];
          [apply Qlt_le_weak, Hbefore', Hu | apply Qle_refl | apply Hafter', Hu].
    - destruct Hb as [_ Hall]. exfalso.
      exact (Qlt_not_le _ _ H60 (Hall t Hin)). }
  assert (Hround : forall x y, (x == y)%Q -> MathRound x = MathRound y).
  { intros x y E. apply Z.le_antisymm; apply MathRound_le; rewrite E; apply Qle_refl. }
  repeat split.
  - intros Hm. destruct Hshape as [(t & Ht & H70 & _ & Hid & Hc) | (_ & Hu & _)];
      [| congruence].
    rewrite Ht in Hb. destruct Hb as (Hs & H60 & before & after & Hl & Hbefore & Hafter).
    rewrite Hconf, Hs in H70, Hc.
    exists before, t, after. repeat split; auto.
  - destruct (Hmax _ _ _ H H0 H1 H2) as (t' & Ht' & E).
    rewrite Ht' in Hb. destruct Hb as (Hs & _).
    destruct Hshape as [(t'' & _ & _ & Hm & _) | ([Hnone | Hle] & _)]; auto.
    + congruence.
    + rewrite Hconf, Hs, (Hround _ _ E) in Hle. lia.
  - destruct (Hmax _ _ _ H H0 H1 H2) as (t' & Ht' & E).
    rewrite Ht' in Hb. destruct Hb as (Hs & _).
    destruct Hshape as [(t'' & _ & _ & _ & _ & Hc) | ([Hnone | Hle] & _)].
    + now rewrite Hc, Hconf, Hs, (Hround _ _ E).
    + congruence.
    + rewrite Hconf, Hs, (Hround _ _ E) in Hle. lia.
  - destruct Hshape as [(t & _ & _ & Hm & _) | (_ & Hu & _)]; [contradiction | exact Hu].
  - destruct Hshape as [(t & _ & _ & Hm & _) | (_ & _ & Hid & _)]; [contradiction | exact Hid].
  - destruct Hshape as [(t & _ & _ & Hm & _) | (_ & _ & _ & Hre)]; [contradiction | exact Hre].
  - destruct Hshape as [(t & Ht & H70 & _) | (_ & Hu & _)]; [| exact Hu].
    rewrite Ht in Hb. destruct Hb as (Hs & _ & before & after & Hl & _).
    rewrite Hconf, Hs in H70.
    assert (Hin : In t allTenants) by (rewrite Hl; apply in_elt).
    pose proof (MathRound_le _ _ (H t Hin)) as Hle.
    change (MathRound 70) with 70 in Hle. lia.
  - destruct Hshape as [(t & Ht & H70 & _) | (_ & _ & _ & Hre)]; [| exact Hre].
    rewrite Ht in Hb. destruct Hb as (Hs & _ & before & after & Hl & _).
    rewrite Hconf, Hs in H70.
    assert (Hin : In t allTenants) by (rewrite Hl; apply in_elt).
    pose proof (MathRound_le _ _ (H t Hin)) as Hle.
    change (MathRound 70) with 70 in Hle. lia.
Qed.

Lemma autoMatch_reads_pool faults d payment :
  faults 0%nat = None ->
  autoMatchPaymentToTenant true faults d payment = matchAgainst (tenants d) payment.
Proof.
  intros Hf.
  unfold autoMatchPaymentToTenant, run, bind, statement, start, ret, selectTenants.
  cbn [negb db issued trail]. now rewrite Hf.
Qed.

(** C7.  For a payment that no phone number matches: the matcher
    reports [matched] exactly when the name loop holds a tenant [t] whose
    rounded similarity is above 70; that tenant scores strictly above
    the floor of 60, strictly more than every tenant before it in the
    pool and at least as much as every tenant after it (of two equal
    scores the first is kept), and the confidence is its rounded
    similarity.  In every other case, and so whenever no tenant scores
    above 70, the result is [unmatched] with the reason "No clear match
    found". *)
Theorem name_match_thresholds faults d payment :
  faults 0%nat = None ->
  noPhoneMatch (tenants d) payment ->
  let r := autoMatchPaymentToTenant true faults d payment in
  let sim := similarityTo payment in
  (matchStatus r = Matched ->
   exists before t after,
     tenants d = (before ++ t :: after)%list /\
     (60 < sim t)%Q /\
     (forall u, In u before -> (sim u < sim t)%Q) /\
     (forall u, In u after -> (sim u <= sim t)%Q) /\
     70 < MathRound (sim t) /\
     tenantId r = Some (Tenant.id t) /\
     matchConfidence r = MathRound (sim t)) /\
  (forall before t after,
     tenants d = (before ++ t :: after)%list ->
     (60 < sim t)%Q ->
     (forall u, In u before -> (sim u < sim t)%Q) ->
     (forall u, In u after -> (sim u <= sim t)%Q) ->
     70 < MathRound (sim t) ->
     matchStatus r = Matched /\ matchConfidence r = MathRound (sim t)) /\
  (matchStatus r <> Matched ->
   matchStatus r = Unmatched /\ tenantId r = None /\
   matchReason r = Some "No clear match found") /\
  ((forall u, In u (tenants d) -> (sim u <= 70)%Q) ->
   matchStatus r = Unmatched /\
   matchReason r = Some "No clear match found").
Proof.
  intros Hf Hno. cbv zeta. rewrite (autoMatch_reads_pool _ _ _ Hf).
  exact (matchAgainst_thresholds (tenants d) payment Hno).
Qed.

(** The payer "Jane Smyth" scores 90 against the second tenant of the
    sample pool and less against the others. *)
Lemma name_match_thresholds_witness :
  noPhoneMatch MatchingSamples.pool (MatchingSamples.payment "Jane Smyth" None) /\
  exists before t after,
    MatchingSamples.pool = (before ++ t :: after)%list /\
    70 < MathRound (similarityTo (MatchingSamples.payment "Jane Smyth" None) t) /\
    tenantId (autoMatchPaymentToTenant true noFaults MatchingSamples.dbTenants
                (MatchingSamples.payment "Jane Smyth" None))
      = Some (Tenant.id t).
Proof.
  assert (Hno : noPhoneMatch MatchingSamples.pool
                  (MatchingSamples.payment "Jane Smyth" None))
    by (intros phone Hp; discriminate Hp).
  split; [exact Hno |].
  destruct (name_match_thresholds noFaults MatchingSamples.dbTenants
              (MatchingSamples.payment "Jane Smyth" None) eq_refl Hno)
    as (Hmatched & _).
  destruct Hmatched as (before & t & after & Hl & _ & _ & _ & H70 & Hid & _).
  - vm_compute. reflexivity.
  - exists before, t, after. auto.
Defined.

(** C10.  Whatever the payment, the pool and the state of the store, the
    result of [autoMatchPaymentToTenant] is [matched] or [unmatched],
    never [manual], and its confidence is an integer from 0 to 100: it
    is 0 when the store cannot be read, 100 on a phone match, and
    otherwise the rounded similarity that the name loop tracks (0 when no
    tenant is above the floor). *)
Theorem match_result_invariants available faults d payment :
  let r := autoMatchPaymentToTenant available faults d payment in
  matchStatus r <> Manual /\
  (matchStatus r = Matched \/ matchStatus r = Unmatched) /\
  0 <= matchConfidence r <= 100 /\
  (r = noResult \/
   (exists t, In t (tenants d) /\ r = phoneMatched t) \/
   (r = matchByName payment (tenants d) /\
    matchConfidence r
      = MathRound (bestSimilarity (bestNameMatch payment (tenants d))))).
Proof.
  intros r.
  assert (Hcases :
            r = noResult \/
            (exists t, In t (tenants d) /\ r = phoneMatched t) \/
            r = matchByName payment (tenants d)).
  { subst r. unfold autoMatchPaymentToTenant.
    destruct available; cbn [negb]; [| now left].
    unfold run, bind, statement, start, ret, selectTenants.
    cbn [db issued trail].
    destruct (faults 0%nat); cbn [result]; [now left |].
    right. unfold matchAgainst.
    destruct (JSString.truthy (phoneNumber payment)); [| now right].
    destruct (phoneNumber payment) as [phone |]; [| now right].
    destruct (find _ _) as [t |] eqn:Hfind; [| now right].
    left. exists t. split; [| reflexivity].
    now apply find_some in Hfind. }
  assert (Hname : let b := bestNameMatch payment (tenants d) in
                  let m := matchByName payment (tenants d) in
                  matchStatus m <> Manual /\
                  (matchStatus m = Matched \/ matchStatus m = Unmatched) /\
                  matchConfidence m = bestConfidence b).
  { cbv zeta. unfold matchByName.
    destruct (bestTenant _); [destruct (70 <? _) |]; cbn;
      repeat split; auto; discriminate. }
  destruct Hname as (Hn1 & Hn2 & Hn3).
  pose proof (bestConfidence_range payment (tenants d)) as Hrange.
  destruct (bestNameMatch_tracked payment (tenants d)) as [Hconf _].
  destruct Hcases as [-> | [(t & Hin & ->) | ->]].
  - cbn. split; [discriminate |]. split; [now right |].
    split; [lia | now left].
  - cbn. split; [discriminate |]. split; [now left |].
    split; [lia |]. right. left. now exists t.
  - split; [exact Hn1 |]. split; [exact Hn2 |].
    split; [rewrite Hn3; exact Hrange |].
    right. right. split; [reflexivity |]. now rewrite Hn3.
Qed.

Module FeedFacts.
Import JSString JSNumber.

Lemma collect_In {A B} (f : A -> option B) l y :
  In y (collect f l) <-> exists x, In x l /\ f x = Some y.
Proof.
  induction l as [| a l IH]; cbn.
  - split; [intros [] | intros (x & [] & _)].
  - destruct (f a) as [b |] eqn:E; cbn; rewrite IH; split.
    + intros [<- | (x & Hx & Hf)]; eauto.
    + intros (x & [<- | Hx] & Hf); [left; congruence | eauto].
    + intros (x & Hx & Hf); eauto.
    + intros (x & [<- | Hx] & Hf); [congruence | eauto].
Qed.

(** A rounded quotient keeps the sign it is given: it is never above 0
    when the sign is negative. *)
Lemma binary_round_aux_negative mx ex lx :
  gt (binary_round_aux prec emax true mx ex lx) zero = false.
Proof.
  unfold binary_round_aux.
  destruct (shr_fexp prec emax mx ex lx) as [mrs' e'].
  destruct (shr_fexp prec emax _ e' loc_Exact) as [mrs'' e''].
  destruct (shr_m mrs'') as [| m | m]; [reflexivity | | reflexivity].
  destruct (e'' <=? emax - prec)%Z; reflexivity.
Qed.

Lemma ofDecimal_negative n e : gt (ofDecimal true n e) zero = false.
Proof.
  unfold ofDecimal.
  destruct n as [| p | p]; try reflexivity.
  destruct (0 <=? e)%Z; unfold ofRatio, SFdiv;
    match goal with
    | |- context [SFdiv_core_binary ?a ?b ?c ?d ?e ?f] =>
        destruct (SFdiv_core_binary a b c d e f) as [[mz ez] lz]
    end; apply binary_round_aux_negative.
Qed.

(** [parseFloat] of a text that starts with a minus sign is not above 0. *)
Lemma parseFloat_minus rest : gt (parseFloat (String "-" rest)) zero = false.
Proof.
  unfold parseFloat, parseFloatChars. cbn [chars list_ascii_of_string].
  cbn [trimStartChars dropWhile isWhiteSpace].
  change (isWhiteSpace "-") with false. cbn iota.
  change (Ascii.eqb "-" "-") with true. cbn iota.
  unfold parseUnsigned.
  destruct (isPrefix _ _); [reflexivity |].
  destruct (dropWhile isDigit _) as [| c r'].
  - destruct (takeWhile isDigit _); [reflexivity | apply ofDecimal_negative].
  - destruct (Ascii.eqb c ".").
    + destruct (takeWhile isDigit (list_ascii_of_string rest));
        destruct (takeWhile isDigit r'); try reflexivity; apply ofDecimal_negative.
    + destruct (takeWhile isDigit _); [reflexivity | apply ofDecimal_negative].
Qed.

End FeedFacts.
Import FeedFacts.

(** C8, as amended.  [parseCSVPayments] returns nothing for a feed of
    fewer than two lines (a header alone).  Every payment it returns
    comes from a data line with at least two comma-separated fields, has
    an amount strictly above 0 and a non-empty payer name; the name is
    the field of the name column when the header has one, and "Unknown"
    exactly when the header has no name column.  A line with fewer than
    two fields, a line whose amount is not above 0 (an amount field
    that starts with a minus sign among them) and a line whose field
    under an existing name column is blank or missing yield no payment. *)
Theorem parse_feed_rows csv :
  ((List.length (linesOf csv) < 2)%nat -> parseCSVPayments csv = []) /\
  (forall p, In p (parseCSVPayments csv) ->
     exists headerLine dataLines line,
       linesOf csv = headerLine :: dataLines /\
       In line dataLines /\
       parseLine (columnsOf headerLine) line = Some p /\
       (2 <= List.length (partsOf line))%nat /\
       JSNumber.gt (amount p) JSNumber.zero = true /\
       payerName p <> "" /\
       match nameIdx (columnsOf headerLine) with
       | Some i => nth_error (partsOf line) i = Some (payerName p)
       | None => payerName p = "Unknown"
       end) /\
  (forall cols line,
     (List.length (partsOf line) < 2)%nat -> parseLine cols line = None) /\
  (forall cols line,
     JSNumber.gt (amountOf cols (partsOf line)) JSNumber.zero = false ->
     parseLine cols line = None) /\
  (forall cols line i rest,
     amountIdx cols = Some i ->
     nth_error (partsOf line) i = Some (String "-" rest) ->
     parseLine cols line = None) /\
  (forall cols line i,
     nameIdx cols = Some i ->
     nth_error (partsOf line) i = Some "" \/ nth_error (partsOf line) i = None ->
     parseLine cols line = None).
Proof.
  assert (Hamount : forall cols line,
             JSNumber.gt (amountOf cols (partsOf line)) JSNumber.zero = false ->
             parseLine cols line = None).
  { intros cols line H. unfold parseLine.
    destruct (_ <? 2)%nat; [reflexivity |]. now rewrite H. }
  split; [| split; [| split; [| split; [| split]]]].
  - intros H. unfold parseCSVPayments.
    apply Nat.ltb_lt in H. now rewrite H.
  - intros p Hp. unfold parseCSVPayments in Hp.
    destruct (List.length (linesOf csv) <? 2)%nat; [destruct Hp |].
    destruct (linesOf csv) as [| headerLine dataLines]; [destruct Hp |].
    apply collect_In in Hp as (line & Hline & Hparse).
    exists headerLine, dataLines, line.
    split; [reflexivity |]. split; [exact Hline |]. split; [exact Hparse |].
    unfold parseLine in Hparse.
    destruct (Nat.ltb_spec (List.length (partsOf line)) 2); [discriminate |].
    split; [assumption |].
    destruct (JSNumber.gt _ _) eqn:Hgt; [| discriminate].
    unfold payerNameOf in *.
    destruct (nameIdx (columnsOf headerLine)) as [i |].
    + destruct (nth_error (partsOf line) i) as [name |] eqn:Hname;
        [| discriminate].
      cbn [andb] in Hparse.
      destruct (JSString.truthy (Some name)) eqn:Ht; [| discriminate].
      injection Hparse as <-. cbn [amount payerName].
      repeat split; auto. now apply truthy_some.
    + cbn in Hparse. injection Hparse as <-. cbn [amount payerName].
      repeat split; auto. discriminate.
  - intros cols line H. unfold parseLine.
    apply Nat.ltb_lt in H. now rewrite H.
  - exact Hamount.
  - intros cols line i rest Hi Hf. apply Hamount.
    unfold amountOf. rewrite Hi, Hf. apply parseFloat_minus.
  - intros cols line i Hi Hf. unfold parseLine.
    destruct (_ <? 2)%nat; [reflexivity |].
    unfold payerNameOf. rewrite Hi.
    destruct Hf as [-> | ->]; cbn [JSString.truthy String.eqb negb];
      now rewrite andb_false_r.
Qed.

(** C8, as stated, fails: in a feed with a name column, the row whose
    name field is blank is not given the name "Unknown", it is dropped;
    "Unknown" is the name of the rows of a feed without a name column. *)
Lemma blank_name_is_not_defaulted :
  nameIdx (columnsOf "Date,Amount,Payer Name") = Some 2%nat /\
  nth_error (partsOf "2025-01-16,1000,") 2 = Some "" /\
  JSNumber.gt (amountOf (columnsOf "Date,Amount,Payer Name")
                        (partsOf "2025-01-16,1000,")) JSNumber.zero = true /\
  parseLine (columnsOf "Date,Amount,Payer Name") "2025-01-16,1000," = None /\
  map payerName (parseCSVPayments MatchingSamples.feedBlankName) = ["John Doe"] /\
  ~ (exists p, In p (parseCSVPayments MatchingSamples.feedBlankName) /\
               payerName p = "Unknown") /\
  nameIdx (columnsOf "Date,Amount") = None /\
  map payerName (parseCSVPayments MatchingSamples.feedNoNameColumn) = ["Unknown"].
Proof.
  repeat split; try (vm_compute; reflexivity).
  intros (p & Hin & Hname).
  apply (in_map payerName) in Hin. rewrite Hname in Hin.
  revert Hin. vm_compute. intros [H | []]. discriminate H.
Qed.

(** The format generated invoice numbers do have: the number of a row is
    "INV-", the year, the month in two digits, a hyphen and six
    characters; each of the six is an upper-case letter, a digit, an
    underscore or a hyphen. *)
Lemma invoice_number_shape env logId pos lease :
  exists suffix,
    PendingInvoice.invoiceNumber (pendingInvoiceFor env logId pos lease)
      = "INV-" ++ JSString.ofInteger (JSDate.getFullYear (now env))
        ++ JSString.padStart0 2 (JSString.ofInteger (JSDate.getMonth (now env) + 1))
        ++ "-" ++ JSString.ofChars suffix /\
    List.length suffix = 6%nat /\
    Forall (fun c => isUrlSymbol c = true /\ JSString.upperChar c = c) suffix.
Proof.
  exists (map JSString.upperChar
              (map (fun i => Nanoid.symbol (random env i)) (seq pos 6))).
  split; [| split].
  - cbn [pendingInvoiceFor PendingInvoice.invoiceNumber].
    unfold invoiceNumberOf, JSString.toUpperCase, Nanoid.nanoid.
    now rewrite chars_ofChars.
  - now rewrite !length_map, length_seq.
  - apply Forall_forall. intros c Hc.
    apply in_map_iff in Hc as (c0 & <- & Hc0).
    apply in_map_iff in Hc0 as (i & <- & _).
    unfold Nanoid.symbol.
    assert (Hlt : (N.to_nat (N.land (random env i) 63) < 64)%nat).
    { assert (N.land (random env i) 63 < 64)%N; [| lia].
      change 63%N with (N.ones 6). rewrite N.land_ones.
      apply N.mod_lt. discriminate. }
    revert Hlt. generalize (N.to_nat (N.land (random env i) 63)). intros k Hk.
    do 64 (destruct k as [| k]; [vm_compute; auto |]). lia.
Qed.

(** C9 fails on the code: with random bytes 44, 8, 0, 1, 2, 3 the run of
    January 2025 numbers its invoice "INV-202501-_-USEA", whose suffix
    holds an underscore and a hyphen. *)
Lemma invoice_number_not_alphanumeric :
  let env := {| dbAvailable := true; now := 20100; faults := noFaults;
                random := fun i => nth i [44; 8; 0; 1; 2; 3]%N 0%N |} in
  let number :=
    PendingInvoice.invoiceNumber
      (pendingInvoiceFor env 1 0 (Samples.lease 1 "10000.00" "500.00" LeaseActive)) in
  number = "INV-202501-_-USEA" /\
  forallb isAlphanumeric (JSString.sliceLast 6 (JSString.chars number)) = false.
Proof.
  cbv zeta. split; vm_compute; reflexivity.
Qed.

(* ================================================================== *)
(** * Further properties: strings *)
(* ================================================================== *)

Module StringFacts.
Import JSString.

Lemma length_chars s : List.length (chars s) = String.length s.
Proof. induction s; cbn; auto. Qed.

Lemma ofChars_chars s : ofChars (chars s) = s.
Proof. apply string_of_list_ascii_of_string. Qed.

Lemma chars_inj s t : chars s = chars t -> s = t.
Proof. intros H. rewrite <- (ofChars_chars s), <- (ofChars_chars t). now rewrite H. Qed.

Lemma chars_append s t : chars (s ++ t) = (chars s ++ chars t)%list.
Proof. unfold chars. induction s; cbn; [reflexivity | now rewrite IHs]. Qed.

Lemma lowerChar_idem c : lowerChar (lowerChar c) = lowerChar c.
Proof. destruct c as [[] [] [] [] [] [] [] []]; reflexivity. Qed.

Lemma toLowerCase_idem s : toLowerCase (toLowerCase s) = toLowerCase s.
Proof.
  unfold toLowerCase. rewrite MatchingFacts.chars_ofChars, map_map.
  f_equal. apply map_ext. intros c. apply lowerChar_idem.
Qed.

End StringFacts.

(* ================================================================== *)
(** * Further properties of the invoice engine *)
(* ================================================================== *)

Module GenerationFacts.
Import Schema Store InvoiceGeneration Stages GenerationStages JSString EngineFacts.

Lemma generateRows_length env logId pos ls :
  List.length (generateRows env logId pos ls) = List.length ls.
Proof. revert pos; induction ls; intros; cbn [generateRows List.length]; auto. Qed.

(** The [try] and [catch] blocks of [generateMonthlyInvoices] on a store
    that is available. *)
Lemma generate_blocks env d w o :
  dbAvailable env = true ->
  tryCatch (generationBody env) generationFailed (faults env) (start d) = (w, o) ->
  GenerateRun env d
    (match o with Ok a => a | Thrown e => Some (GenerateFailure e) end)
    (db w).
Proof.
  intros Hav.
  unfold tryCatch, generationBody, generationFailed, tryCatch, bind,
    statement, start, ret.
  cbn [db issued trail].
  destruct (faults env 0%nat) as [m0 |] eqn:F0.
  { cbn [db issued trail].
    pose proof (GenerateSelectFailed env d m0 Hav F0) as H.
    unfold afterCatch in H.
    destruct (faults env 1%nat); intros [= <- <-]; exact H. }
  unfold selectActiveLeases. cbn [db issued trail].
  fold (activeLeasesOf d).
  destruct (List.length (activeLeasesOf d) =? 0)%nat eqn:Hlen.
  { apply length_zero_nil in Hlen. intros [= <- <-]. now apply GenerateNoLease. }
  apply length_nonzero in Hlen. cbn [db issued trail].
  destruct (faults env 1%nat) as [m1 |] eqn:F1.
  { cbn [db issued trail].
    pose proof (GenerateLogFailed env d m1 Hav F0 Hlen F1) as H.
    unfold afterCatch in H.
    destruct (faults env 2%nat); intros [= <- <-]; exact H. }
  unfold insertLog at 1. cbn [db issued trail].
  fold (startedLog env). fold (appendLog (startedLog env) d). fold (afterLog env d).
  fold (logIdOf d).
  assert (Hrows : (0 <? List.length (generateRows env (logIdOf d) 0 (activeLeasesOf d)))%nat = true).
  { rewrite generateRows_length. destruct (activeLeasesOf d); [congruence | reflexivity]. }
  rewrite Hrows. cbn [db issued trail].
  destruct (faults env 2%nat) as [m2 |] eqn:F2.
  { cbn [db issued trail].
    pose proof (GenerateInsertFailed env d m2 Hav F0 Hlen F1 F2) as H.
    unfold afterCatch in H.
    destruct (faults env 3%nat); intros [= <- <-]; exact H. }
  unfold insertPendingInvoices. cbn [db issued trail].
  change (pendingInvoices (afterLog env d)) with (pendingInvoices d).
  change (nextPendingInvoiceId (afterLog env d)) with (nextPendingInvoiceId d).
  fold (generatedRows env d). fold (afterRows env d).
  destruct (faults env 3%nat) as [m3 |] eqn:F3.
  { cbn [db issued trail].
    pose proof (GenerateUpdateFailed env d m3 Hav F0 Hlen F1 F2 F3) as H.
    unfold afterCatch in H.
    destruct (faults env 4%nat); intros [= <- <-]; exact H. }
  unfold updateLog. cbn [db issued trail].
  rewrite generateRows_length.
  change (invoiceGenerationLogs (afterRows env d))
    with (invoiceGenerationLogs (afterLog env d)).
  change (nextLogId (afterRows env d)) with (nextLogId d + 1).
  intros [= <- <-]. now apply GenerateDone.
Qed.

(** Every run of [generateMonthlyInvoices] ends in one of the seven
    ways. *)
Lemma generate_cases env d :
  GenerateRun env d (result (generateMonthlyInvoices env d))
                    (final (generateMonthlyInvoices env d)).
Proof.
  unfold generateMonthlyInvoices.
  destruct (dbAvailable env) eqn:Hav; cbn [negb].
  { unfold run.
    destruct (tryCatch (generationBody env) generationFailed (faults env) (start d))
      as [w o] eqn:E.
    pose proof (generate_blocks env d w o Hav E) as H.
    destruct o; exact H. }
  now apply GenerateUnavailable.
Qed.

Lemma GenerateRun_none env d s :
  GenerateRun env d None s ->
  s = d /\ (dbAvailable env = false \/ (faults env 0%nat = None /\ activeLeasesOf d = [])).
Proof. intros R. inversion R; auto. Qed.

Lemma generate_success env d n k l :
  result (generateMonthlyInvoices env d) = Some (GenerateSuccess n k l) ->
  final (generateMonthlyInvoices env d) = afterCounts env d /\
  n = Z.of_nat (List.length (activeLeasesOf d)) /\
  k = Z.of_nat (List.length (affectedProperties (activeLeasesOf d))) /\
  l = logIdOf d /\
  activeLeasesOf d <> [].
Proof.
  intros H. pose proof (generate_cases env d) as R. rewrite H in R.
  inversion R; subst. auto.
Qed.

Lemma map_unchanged {A} (f : A -> A) (l : list A) :
  (forall x, In x l -> f x = x) -> map f l = l.
Proof.
  induction l as [| a l IH]; cbn; intros H; [reflexivity |].
  rewrite H by auto. f_equal. apply IH. auto.
Qed.

Lemma nodup_length_le (l : list Z) :
  (List.length (nodup Z.eq_dec l) <= List.length l)%nat.
Proof.
  induction l as [| a l IH]; cbn [nodup List.length]; [lia |].
  destruct (in_dec Z.eq_dec a l); cbn [List.length]; lia.
Qed.

(** The active leases of a table with distinct lease ids have distinct
    ids. *)
Lemma activeLeases_distinct_ids (ls : list Lease.t) :
  NoDup (map Lease.id ls) ->
  NoDup (map Lease.id (filter (fun l => isActive (Lease.status l)) ls)).
Proof.
  induction ls as [| a ls IH]; cbn [map filter]; intros H; [constructor |].
  apply NoDup_cons_iff in H as [Hn Hd].
  destruct (isActive (Lease.status a)); cbn [map]; [| now apply IH].
  apply NoDup_cons_iff. split; [| now apply IH].
  intros Hin. apply Hn. apply in_map_iff in Hin as (y & Hy & Hin).
  apply filter_In in Hin as [Hin _]. apply in_map_iff. eauto.
Qed.






End GenerationFacts.

Import Schema Store InvoiceGeneration Stages GenerationStages EngineFacts GenerationFacts.

(** X9.  [generateMonthlyInvoices] returns [undefined] exactly when the
    store is unavailable, or when the query for the active leases works
    and finds none; the store is then left as it was, without a log
    row. *)
Theorem generate_returns_undefined env d :
  let r := generateMonthlyInvoices env d in
  (result r = None <->
   dbAvailable env = false \/ (faults env 0%nat = None /\ activeLeasesOf d = [])) /\
  (result r = None -> final r = d).
Proof.
  cbv zeta. pose proof (generate_cases env d) as R.
  split; [split |].
  - intros H. rewrite H in R. now apply GenerateRun_none in R.
  - intros [H | [H0 Hl]]; inversion R; subst; try reflexivity; congruence.
  - intros H. rewrite H in R. now apply GenerateRun_none in R.
Qed.



(** X11.  The count of "properties affected" that a successful run
    returns is the number of distinct lease ids among the active leases:
    it never exceeds the number of invoices generated, and it equals it
    whenever the lease ids are pairwise distinct, as primary keys are. *)
Theorem properties_affected_counts_leases env d n k l :
  result (generateMonthlyInvoices env d) = Some (GenerateSuccess n k l) ->
  0 < k <= n /\
  (NoDup (map Lease.id (leases d)) -> k = n).
Proof.
  intros H. destruct (generate_success env d n k l H) as (_ & -> & -> & _ & Hne).
  unfold affectedProperties. split.
  - pose proof (nodup_length_le (map Lease.id (activeLeasesOf d))) as Hle.
    rewrite length_map in Hle. split; [| lia].
    destruct (activeLeasesOf d) as [| a ls] eqn:E; [congruence |].
    assert (Hin : In (Lease.id a) (nodup Z.eq_dec (map Lease.id (a :: ls)))).
    { apply nodup_In. cbn. auto. }
    destruct (nodup Z.eq_dec (map Lease.id (a :: ls))); [destruct Hin | cbn; lia].
  - intros Hnd. rewrite nodup_fixed_point.
    + now rewrite length_map.
    + unfold activeLeasesOf. now apply activeLeases_distinct_ids.
Qed.

Lemma properties_affected_counts_leases_witness :
  result (generateMonthlyInvoices Samples.env Samples.dbLeases)
    = Some (GenerateSuccess 2 2 1) /\
  0 < 2 <= 2.
Proof.
  assert (H : result (generateMonthlyInvoices Samples.env Samples.dbLeases)
              = Some (GenerateSuccess 2 2 1)) by (vm_compute; reflexivity).
  split; [exact H |].
  exact (proj1 (properties_affected_counts_leases Samples.env Samples.dbLeases 2 2 1 H)).
Defined.

(** X12.  A generation run that reports a failure has had one of its
    four statements throw, and reports the message thrown.  What was
    written before stays: the log row of the run, still pending_review with both
    counts 0, once the insert of the log row is past, and the pending
    invoices once their insert is past.  The [catch] block then appends a
    log row with status failed and the message, unless that insert throws
    as well, in which case the store is left as the failing statement
    found it. *)
Theorem generate_failure_states env d e :
  let r := generateMonthlyInvoices env d in
  result r = Some (GenerateFailure e) ->
  exists (j : nat) (s : Db),
    (j <= 3)%nat /\ faults env j = Some e /\
    (forall i, (i < j)%nat -> faults env i = None) /\
    (s = match j with
         | 0%nat | 1%nat => d
         | 2%nat => afterLog env d
         | _ => afterRows env d
         end) /\
    (faults env (S j) = None -> final r = appendLog (failedLog e) s) /\
    (faults env (S j) <> None -> final r = s) /\
    pendingInvoices (final r)
      = (if (j <? 3)%nat then pendingInvoices d
         else (pendingInvoices d ++ generatedRows env d)%list).
Proof.
  cbv zeta. intros H. pose proof (generate_cases env d) as R.
  rewrite H in R. set (f := final _) in *.
  assert (Hcatch : forall k s,
             (faults env k = None -> afterCatch env k e s = appendLog (failedLog e) s) /\
             (faults env k <> None -> afterCatch env k e s = s) /\
             pendingInvoices (afterCatch env k e s) = pendingInvoices s).
  { intros k s. unfold afterCatch. destruct (faults env k); repeat split; congruence. }
  inversion R as [| | e' Hav F0 | e' Hav F0 Hl F1 | e' Hav F0 Hl F1 F2
                  | e' Hav F0 Hl F1 F2 F3 |]; subst.
  - exists 0%nat, d. destruct (Hcatch 1%nat d) as (C1 & C2 & C3).
    repeat split; auto; intros i Hi; lia.
  - exists 1%nat, d. destruct (Hcatch 2%nat d) as (C1 & C2 & C3).
    repeat split; auto. intros i Hi. assert (i = 0%nat) as -> by lia. exact F0.
  - exists 2%nat, (afterLog env d).
    destruct (Hcatch 3%nat (afterLog env d)) as (C1 & C2 & C3).
    repeat split; auto. intros i Hi.
    destruct i as [| [| i]]; [exact F0 | exact F1 | lia].
  - exists 3%nat, (afterRows env d).
    destruct (Hcatch 4%nat (afterRows env d)) as (C1 & C2 & C3).
    repeat split; auto. intros i Hi.
    destruct i as [| [| [| i]]]; [exact F0 | exact F1 | exact F2 | lia].
Qed.

(** With the sample store failing on the update of the log row, the run
    reports a failure while its two pending invoices are stored. *)
Lemma generate_failure_states_witness :
  let r := generateMonthlyInvoices GenerationSamples.envUpdateFails Samples.dbLeases in
  result r = Some (GenerateFailure "Connection lost") /\
  List.length (pendingInvoices (final r)) = 2%nat /\
  map GenerationLog.status (invoiceGenerationLogs (final r)) = [PendingReview; Failed] /\
  map GenerationLog.invoicesGenerated (invoiceGenerationLogs (final r)) = [0; 0].
Proof.
  cbv zeta.
  assert (H : result (generateMonthlyInvoices GenerationSamples.envUpdateFails
                        Samples.dbLeases)
              = Some (GenerateFailure "Connection lost")) by (vm_compute; reflexivity).
  split; [exact H |].
  destruct (generate_failure_states GenerationSamples.envUpdateFails Samples.dbLeases
              "Connection lost" H) as (j & s & _ & _ & _ & _ & _ & _ & Hp).
  split; [| split; vm_compute; reflexivity].
  rewrite Hp. destruct (j <? 3)%nat eqn:E; vm_compute; [| reflexivity].
  exfalso. revert E Hp. vm_compute. intros _. discriminate.
Defined.

Module FinalizeFacts.
Import Schema Store InvoiceGeneration Stages GenerationStages JSString.

Lemma map_invoiceNumber ps :
  map Invoice.invoiceNumber (map toInvoice ps) = map PendingInvoice.invoiceNumber ps.
Proof. rewrite map_map. reflexivity. Qed.


(** Four decimal digits print every integer from 1000 to 9999, two
    print the months 1 to 12 once padded. *)
Lemma year_digits y :
  1000 <= y <= 9999 ->
  List.length (chars (ofInteger y)) = 4%nat /\
  forallb isDigit (chars (ofInteger y)) = true.
Proof.
  intros Hy.
  assert (Hall : forallb (fun k => let s := chars (ofInteger (Z.of_nat k + 1000)) in
                                   (List.length s =? 4)%nat && forallb isDigit s)
                         (seq 0 (Z.to_nat 9000)) = true) by (vm_compute; reflexivity).
  rewrite forallb_forall in Hall.
  specialize (Hall (Z.to_nat (y - 1000))).
  replace (Z.of_nat (Z.to_nat (y - 1000)) + 1000) with y in Hall by lia.
  cbv zeta in Hall.
  destruct (andb_prop _ _ (Hall ltac:(apply in_seq; lia))) as [H1 H2].
  split; [now apply Nat.eqb_eq | exact H2].
Qed.

Lemma month_digits m :
  0 <= m <= 11 ->
  List.length (chars (padStart0 2 (ofInteger (m + 1)))) = 2%nat /\
  forallb isDigit (chars (padStart0 2 (ofInteger (m + 1)))) = true.
Proof.
  intros Hm.
  assert (Hc : m = 0 \/ m = 1 \/ m = 2 \/ m = 3 \/ m = 4 \/ m = 5 \/ m = 6 \/ m = 7
               \/ m = 8 \/ m = 9 \/ m = 10 \/ m = 11) by lia.
  repeat (destruct Hc as [-> | Hc]; [vm_compute; auto |]).
  subst m. vm_compute. auto.
Qed.

End FinalizeFacts.

Import FinalizeFacts.

(** X13.  A finalization that reports success has set the status of the
    log row [logId] to finalized and its details to "Finalized n
    invoices. Ready for collection.", keeping the two counts the row
    held; every other log row, the leases and the tenants are as before.
    The status the row had is not looked at, and a [logId] that no log
    row carries changes no log row. *)
Theorem finalize_marks_log env logId d n :
  result (finalizePendingInvoices env logId d) = Some (FinalizeSuccess n) ->
  let s := final (finalizePendingInvoices env logId d) in
  invoiceGenerationLogs s
    = map (fun r =>
             if GenerationLog.id r =? logId
             then {| GenerationLog.id := GenerationLog.id r;
                     GenerationLog.invoicesGenerated := GenerationLog.invoicesGenerated r;
                     GenerationLog.propertiesAffected := GenerationLog.propertiesAffected r;
                     GenerationLog.status := Finalized;
                     GenerationLog.details :=
                       Some ("Finalized " ++ JSString.ofInteger n
                             ++ " invoices. Ready for collection.") |}
             else r)
          (invoiceGenerationLogs d) /\
  ((forall r, In r (invoiceGenerationLogs d) -> GenerationLog.id r <> logId) ->
   invoiceGenerationLogs s = invoiceGenerationLogs d) /\
  leases s = leases d /\ tenants s = tenants d /\ nextLogId s = nextLogId d.
Proof.
  intros H. cbv zeta. destruct (finalize_success env logId d n H) as [-> ->].
  cbn [afterFinalized afterDelete afterInsert withLogs withPending withInvoices
       invoiceGenerationLogs leases tenants nextLogId].
  rewrite length_map.
  split; [reflexivity |]. split; [| repeat split].
  intros Hno. apply map_unchanged. intros r Hr.
  destruct (Z.eqb_spec (GenerationLog.id r) logId) as [E | _]; [| reflexivity].
  now destruct (Hno r Hr).
Qed.

Lemma finalize_marks_log_witness :
  result (finalizePendingInvoices Samples.env 1 Samples.dbDrafts)
    = Some (FinalizeSuccess 2) /\
  map GenerationLog.status
      (invoiceGenerationLogs (final (finalizePendingInvoices Samples.env 1 Samples.dbDrafts)))
    = [Finalized] /\
  map GenerationLog.invoicesGenerated
      (invoiceGenerationLogs (final (finalizePendingInvoices Samples.env 1 Samples.dbDrafts)))
    = [2].
Proof.
  assert (H : result (finalizePendingInvoices Samples.env 1 Samples.dbDrafts)
              = Some (FinalizeSuccess 2)) by (vm_compute; reflexivity).
  split; [exact H |].
  destruct (finalize_marks_log Samples.env 1 Samples.dbDrafts 2 H) as (Hlogs & _).
  rewrite Hlogs. split; vm_compute; reflexivity.
Defined.

(** X14.  The invoice numbers are unique in the [invoices] table.  When
    a pending invoice of [logId] carries a number that an invoice or
    another pending invoice of [logId] carries too, the insert is
    rejected as a whole: the finalization reports a failure and leaves
    the store as it was, all pending invoices of [logId] still in
    place. *)
Theorem finalize_rejects_duplicate_numbers env logId d :
  dbAvailable env = true ->
  faults env 0%nat = None -> faults env 1%nat = None ->
  draftsOf logId d <> [] ->
  distinct (map Invoice.invoiceNumber (invoices d)
            ++ map PendingInvoice.invoiceNumber (draftsOf logId d)) = false ->
  (exists e, result (finalizePendingInvoices env logId d) = Some (FinalizeFailure e)) /\
  final (finalizePendingInvoices env logId d) = d.
Proof.
  intros Hav F0 F1 Hne Hdup.
  assert (H : exists e, finalizePendingInvoices env logId d
                        = {| result := Some (FinalizeFailure e); final := d;
                             history := [d] |}).
  { unfold finalizePendingInvoices. rewrite Hav. cbn [negb].
    unfold run, tryCatch, finalizeBody, bind, statement, start, ret.
    cbn [db issued trail]. rewrite F0.
    unfold selectPending. cbn [db issued trail]. fold (draftsOf logId d).
    destruct (List.length (draftsOf logId d) =? 0)%nat eqn:Hlen.
    { apply length_zero_nil in Hlen. contradiction. }
    cbn [db issued trail]. rewrite F1.
    unfold insertInvoices. rewrite map_app, map_invoiceNumber, Hdup.
    cbn [db issued trail]. eauto. }
  destruct H as [e ->]. cbn [result final]. eauto.
Qed.

(** With random bytes that repeat, the two pending invoices of a run on
    the sample store get the same number, and their finalization is
    refused. *)
Lemma finalize_rejects_duplicate_numbers_witness :
  let drafts := final (generateMonthlyInvoices GenerationSamples.envRepeating Samples.dbLeases) in
  map PendingInvoice.invoiceNumber (draftsOf 1 drafts)
    = ["INV-202501-USEAND"; "INV-202501-USEAND"] /\
  (exists e, result (finalizePendingInvoices Samples.env 1 drafts)
             = Some (FinalizeFailure e)) /\
  final (finalizePendingInvoices Samples.env 1 drafts) = drafts.
Proof.
  cbv zeta. split; [vm_compute; reflexivity |].
  apply finalize_rejects_duplicate_numbers.
  - reflexivity.
  - reflexivity.
  - reflexivity.
  - vm_compute. discriminate.
  - vm_compute. reflexivity.
Defined.



(** X16.  In the years 1000 to 9999 a generated invoice number has 17
    characters: "INV-", the four digits of the year, the two digits of
    the month (01 to 12), a hyphen, and six characters that are each an
    upper-case letter, a digit, an underscore or a hyphen. *)
Theorem invoice_number_format env logId pos lease :
  1000 <= JSDate.getFullYear (now env) <= 9999 ->
  let number := PendingInvoice.invoiceNumber (pendingInvoiceFor env logId pos lease) in
  String.length number = 17%nat /\
  exists yyyy mm suffix,
    JSString.chars number
      = (JSString.chars "INV-" ++ yyyy ++ mm ++ JSString.chars "-" ++ suffix)%list /\
    yyyy = JSString.chars (JSString.ofInteger (JSDate.getFullYear (now env))) /\
    List.length yyyy = 4%nat /\ forallb JSString.isDigit yyyy = true /\
    mm = JSString.chars (JSString.padStart0 2
                           (JSString.ofInteger (JSDate.getMonth (now env) + 1))) /\
    List.length mm = 2%nat /\ forallb JSString.isDigit mm = true /\
    List.length suffix = 6%nat /\
    Forall (fun c => isUrlSymbol c = true /\ JSString.upperChar c = c) suffix.
Proof.
  intros Hy. cbv zeta.
  destruct (invoice_number_shape env logId pos lease) as (suffix & Hn & Hlen & Hsym).
  destruct (year_digits _ Hy) as [Hy4 Hyd].
  destruct (month_digits _ (JSDateFacts.MonthFromTime_range (now env))) as [Hm2 Hmd].
  assert (Hchars :
            JSString.chars (PendingInvoice.invoiceNumber
                              (pendingInvoiceFor env logId pos lease))
            = (JSString.chars "INV-"
               ++ JSString.chars (JSString.ofInteger (JSDate.getFullYear (now env)))
               ++ JSString.chars (JSString.padStart0 2
                                    (JSString.ofInteger (JSDate.getMonth (now env) + 1)))
               ++ JSString.chars "-" ++ suffix)%list).
  { rewrite Hn, !StringFacts.chars_append, MatchingFacts.chars_ofChars. reflexivity. }
  split.
  - rewrite <- StringFacts.length_chars, Hchars, !length_app, Hy4, Hlen.
    unfold JSDate.getMonth. rewrite Hm2. reflexivity.
  - do 3 eexists. split; [exact Hchars |]. repeat split; auto.
Qed.

Lemma invoice_number_format_witness :
  1000 <= JSDate.getFullYear (now Samples.env) <= 9999 /\
  String.length (PendingInvoice.invoiceNumber
                   (pendingInvoiceFor Samples.env 1 0 (Samples.lease 1 "0.10" "0.20" LeaseActive)))
    = 17%nat.
Proof.
  assert (H : 1000 <= JSDate.getFullYear (now Samples.env) <= 9999)
    by (vm_compute; split; discriminate).
  split; [exact H |].
  exact (proj1 (invoice_number_format Samples.env 1 0
                  (Samples.lease 1 "0.10" "0.20" LeaseActive) H)).
Defined.


(* ================================================================== *)
(** * Further properties of the payment matcher *)
(* ================================================================== *)

Module EditFacts.
Import PaymentMatching EditTable.

Lemma cell_nil_l p2 : cell [] p2 = List.length p2.
Proof. destruct p2; reflexivity. Qed.

Lemma cell_nil_r p1 : cell p1 [] = List.length p1.
Proof. destruct p1; reflexivity. Qed.

Lemma cell_cons c1 p1 c2 p2 :
  cell (c1 :: p1) (c2 :: p2)
  = if negb (Ascii.eqb c1 c2)
    then (Nat.min (Nat.min (cell p1 p2) (cell (c1 :: p1) p2)) (cell p1 (c2 :: p2)) + 1)%nat
    else cell p1 p2.
Proof. reflexivity. Qed.

Lemma lev_nil_l p2 : lev [] p2 = List.length p2.
Proof. destruct p2; reflexivity. Qed.

Lemma lev_nil_r p1 : lev p1 [] = List.length p1.
Proof. destruct p1; reflexivity. Qed.

Lemma lev_cons c1 p1 c2 p2 :
  lev (c1 :: p1) (c2 :: p2)
  = Nat.min (Nat.min (lev p1 p2 + (if Ascii.eqb c1 c2 then 0 else 1))
                     (lev (c1 :: p1) p2 + 1))
            (lev p1 (c2 :: p2) + 1).
Proof. reflexivity. Qed.

Lemma arraySet_app done x ups v k :
  List.length done = k ->
  arraySet (done ++ x :: ups)%list k v = (done ++ v :: ups)%list.
Proof.
  intros <-. induction done as [| y done IH]; cbn; [reflexivity | now rewrite IH].
Qed.

Lemma arrayGet_app done x ups k :
  List.length done = k -> arrayGet (done ++ x :: ups)%list k = x.
Proof. intros <-. unfold arrayGet. induction done; cbn; auto. Qed.

Lemma arrayGet_app_S done x y ups k :
  List.length done = k -> arrayGet (done ++ x :: y :: ups)%list (S k) = y.
Proof. intros <-. unfold arrayGet. induction done; cbn; auto. Qed.

Lemma nth_app_length {A} (pre : list A) x rest d :
  nth (List.length pre) (pre ++ x :: rest)%list d = x.
Proof. induction pre; cbn; auto. Qed.

(** The inner loop from column [k + 1] on, followed by the final store:
    [done] holds the entries of the new row written so far, [left] is
    [lastValue]. *)
Lemma inner_loop c1 p1 rest : forall pre q done left,
  List.length done = List.length pre ->
  left = cell (c1 :: p1) q ->
  let st := fold_left (innerStep c1 (pre ++ rest)%list)
              (seq (S (List.length pre)) (List.length rest))
              ((done ++ cell p1 q :: rowTail p1 q rest)%list, left) in
  arraySet (fst st) (List.length pre + List.length rest) (snd st)
  = (done ++ left :: rowTail (c1 :: p1) q rest)%list.
Proof.
  induction rest as [| c2 rest IH]; intros pre q done left Hlen Hleft; cbv zeta.
  - cbn [List.length seq fold_left rowTail fst snd].
    rewrite Nat.add_0_r. now apply arraySet_app.
  - cbn [List.length seq fold_left rowTail].
    set (v := if negb (Ascii.eqb c1 c2)
              then (Nat.min (Nat.min (cell p1 q) left) (cell p1 (c2 :: q)) + 1)%nat
              else cell p1 q).
    assert (Hstep : innerStep c1 (pre ++ c2 :: rest)%list
                      ((done ++ cell p1 q :: cell p1 (c2 :: q)
                             :: rowTail p1 (c2 :: q) rest)%list, left)
                      (S (List.length pre))
                    = ((done ++ left :: cell p1 (c2 :: q)
                             :: rowTail p1 (c2 :: q) rest)%list, v)).
    { unfold innerStep.
      replace (S (List.length pre) - 1)%nat with (List.length pre) by lia.
      rewrite (arrayGet_app _ _ _ _ Hlen), (arrayGet_app_S _ _ _ _ _ Hlen),
        (arraySet_app _ _ _ _ _ Hlen).
      rewrite nth_app_length. reflexivity. }
    rewrite Hstep.
    assert (Hv : v = cell (c1 :: p1) (c2 :: q)).
    { unfold v. rewrite cell_cons, Hleft. reflexivity. }
    assert (Hlen' : List.length (done ++ [left])%list = List.length (pre ++ [c2])%list).
    { rewrite !length_app. cbn [List.length]. lia. }
    pose proof (IH (pre ++ [c2])%list (c2 :: q) (done ++ [left])%list v Hlen' Hv) as IH'.
    cbv zeta in IH'.
    rewrite !length_app in IH'. cbn [List.length] in IH'.
    rewrite <- !app_assoc in IH'. cbn [app] in IH'.
    replace (List.length pre + 1)%nat with (S (List.length pre)) in IH' by lia.
    replace (List.length pre + S (List.length rest))%nat
      with (S (List.length pre) + List.length rest)%nat by lia.
    rewrite IH', Hv. reflexivity.
Qed.

Lemma rowTail_length p1 q rest : List.length (rowTail p1 q rest) = List.length rest.
Proof. revert q; induction rest; intros; cbn; auto. Qed.

Lemma rowStep_row p1 c1 s2 :
  rowStep s2 (row p1 s2) (S (List.length p1), c1) = row (c1 :: p1) s2.
Proof.
  unfold rowStep, row.
  pose proof (inner_loop c1 p1 s2 [] [] [] (S (List.length p1)) eq_refl) as H.
  cbv zeta in H. cbn [app List.length Nat.add] in H.
  destruct (fold_left _ _ _) as [costs' lastValue].
  apply H. now rewrite cell_nil_r.
Qed.

Lemma arraySet_end l v : arraySet l (List.length l) v = (l ++ [v])%list.
Proof. induction l; cbn; [reflexivity | now rewrite IHl]. Qed.

Lemma firstRow_seq n : firstRow n = seq 0 (S n).
Proof.
  unfold firstRow.
  assert (H : forall m k, fold_left (fun costs j => arraySet costs j j) (seq k m) (seq 0 k)
                          = seq 0 (k + m)).
  { induction m as [| m IH]; intros k; cbn [seq fold_left].
    - f_equal; lia.
    - replace (arraySet (seq 0 k) k k) with (seq 0 (S k)).
      + rewrite IH. f_equal; lia.
      + rewrite seq_S. cbn [Nat.add].
        pose proof (arraySet_end (seq 0 k) k) as E.
        rewrite length_seq in E. now rewrite E. }
  apply (H (S n) 0%nat).
Qed.

Lemma rowTail_nil q rest : rowTail [] q rest = seq (S (List.length q)) (List.length rest).
Proof.
  revert q; induction rest as [| c rest IH]; intros q; cbn [rowTail List.length seq].
  - reflexivity.
  - rewrite IH. reflexivity.
Qed.

Lemma firstRow_row s2 : firstRow (List.length s2) = row [] s2.
Proof. rewrite firstRow_seq. unfold row. now rewrite rowTail_nil. Qed.

Lemma outer_loop s2 rest : forall p1,
  fold_left (rowStep s2) (combine (seq (S (List.length p1)) (List.length rest)) rest)
            (row p1 s2)
  = row (rev rest ++ p1)%list s2.
Proof.
  induction rest as [| c rest IH]; intros p1; cbn [List.length seq combine fold_left rev app].
  - reflexivity.
  - rewrite rowStep_row. pose proof (IH (c :: p1)) as E. cbn [List.length] in E.
    rewrite E. now rewrite <- app_assoc.
Qed.

Lemma row_last p1 rest : forall q,
  nth (List.length rest) (cell p1 q :: rowTail p1 q rest) O = cell p1 (rev rest ++ q)%list.
Proof.
  induction rest as [| c rest IH]; intros q.
  - reflexivity.
  - cbn [rev]. rewrite <- app_assoc. cbn [app]. exact (IH (c :: q)).
Qed.

(** The loops compute the table. *)
Lemma getEditDistanceChars_cell s1 s2 :
  getEditDistanceChars s1 s2 = cell (rev s1) (rev s2).
Proof.
  unfold getEditDistanceChars, arrayGet.
  rewrite firstRow_row.
  pose proof (outer_loop s2 s1 []) as E. cbn [List.length] in E.
  rewrite E, app_nil_r.
  unfold row. rewrite row_last. now rewrite app_nil_r.
Qed.

Lemma cell_sym p1 : forall p2, cell p1 p2 = cell p2 p1.
Proof.
  induction p1 as [| c1 p1 IH1]; intros p2.
  - now rewrite cell_nil_l, cell_nil_r.
  - induction p2 as [| c2 p2 IH2].
    + now rewrite cell_nil_l, cell_nil_r.
    + rewrite !cell_cons. rewrite (Ascii.eqb_sym c2 c1).
      rewrite <- IH2, !IH1.
      destruct (Ascii.eqb c1 c2); cbn [negb]; [reflexivity | lia].
Qed.

Lemma cell_upper p1 : forall p2,
  (cell p1 p2 <= Nat.max (List.length p1) (List.length p2))%nat.
Proof.
  induction p1 as [| c1 p1 IH1]; intros p2.
  - rewrite cell_nil_l. cbn. lia.
  - induction p2 as [| c2 p2 IH2].
    + rewrite cell_nil_r. lia.
    + rewrite cell_cons. pose proof (IH1 p2). pose proof (IH1 (c2 :: p2)).
      cbn [List.length] in *.
      destruct (negb _); lia.
Qed.

Lemma cell_lower p1 : forall p2,
  (List.length p1 - List.length p2 <= cell p1 p2)%nat /\
  (List.length p2 - List.length p1 <= cell p1 p2)%nat.
Proof.
  induction p1 as [| c1 p1 IH1]; intros p2.
  - rewrite cell_nil_l. cbn. lia.
  - induction p2 as [| c2 p2 IH2].
    + rewrite cell_nil_r. cbn [List.length]. lia.
    + rewrite cell_cons. pose proof (IH1 p2). pose proof (IH1 (c2 :: p2)).
      cbn [List.length] in *.
      destruct (negb _); lia.
Qed.

Lemma cell_zero p1 : forall p2, cell p1 p2 = O <-> p1 = p2.
Proof.
  induction p1 as [| c1 p1 IH1]; intros p2.
  - rewrite cell_nil_l. destruct p2; cbn; split; congruence.
  - destruct p2 as [| c2 p2].
    + rewrite cell_nil_r. cbn. split; congruence.
    + rewrite cell_cons. destruct (Ascii.eqb_spec c1 c2) as [-> | Hne]; cbn [negb].
      * rewrite IH1. split; congruence.
      * split; [lia | congruence].
Qed.

(** Dropping the last character of either string moves the Levenshtein
    distance by at most one. *)
Lemma lev_step_r p1 c2 p2 : (lev p1 (c2 :: p2) <= lev p1 p2 + 1)%nat.
Proof.
  destruct p1 as [| c1 p1].
  - rewrite !lev_nil_l. cbn. lia.
  - rewrite lev_cons. lia.
Qed.

Lemma lev_step_l c1 p1 p2 : (lev (c1 :: p1) p2 <= lev p1 p2 + 1)%nat.
Proof.
  destruct p2 as [| c2 p2].
  - rewrite !lev_nil_r. cbn. lia.
  - rewrite lev_cons. lia.
Qed.

Lemma lev_drop p1 : forall p2 c,
  (lev p1 p2 <= lev (c :: p1) p2 + 1)%nat /\ (lev p1 p2 <= lev p1 (c :: p2) + 1)%nat.
Proof.
  induction p1 as [| c1 p1 IH1]; intros p2.
  - intros c. rewrite !lev_nil_l. split.
    + pose proof (lev_lower_dummy := I).
      induction p2 as [| c2 p2 IH2].
      * rewrite lev_nil_r. cbn. lia.
      * rewrite lev_cons, !lev_nil_l. cbn [List.length] in *.
        destruct (Ascii.eqb c c2); lia.
    + cbn. lia.
  - induction p2 as [| c2 p2 IH2]; intros c.
    + rewrite !lev_nil_r. split; [cbn; lia |].
      rewrite lev_cons, !lev_nil_r.
      destruct (IH1 [] c) as [_ H]. rewrite lev_nil_r in H.
      pose proof (lev_step_l c1 p1 [c]). cbn [List.length] in *.
      destruct (Ascii.eqb c1 c); lia.
    + split.
      * rewrite (lev_cons c (c1 :: p1) c2 p2).
        destruct (IH2 c) as [H1 H2].
        pose proof (lev_step_r (c1 :: p1) c2 p2).
        destruct (Ascii.eqb c c2); lia.
      * rewrite (lev_cons c1 p1 c (c2 :: p2)).
        destruct (IH1 (c2 :: p2) c) as [H1 H2].
        pose proof (lev_step_l c1 p1 (c2 :: p2)).
        destruct (Ascii.eqb c1 c); lia.
Qed.

Lemma cell_lev p1 : forall p2, cell p1 p2 = lev p1 p2.
Proof.
  induction p1 as [| c1 p1 IH1]; intros p2.
  - now rewrite cell_nil_l, lev_nil_l.
  - induction p2 as [| c2 p2 IH2].
    + now rewrite cell_nil_r, lev_nil_r.
    + rewrite cell_cons, lev_cons, IH2, !IH1.
      destruct (Ascii.eqb c1 c2); cbn [negb].
      * destruct (lev_drop p1 p2 c1) as [H1 _].
        destruct (lev_drop p1 p2 c2) as [_ H2]. lia.
      * lia.
Qed.

End EditFacts.

Module SimilarityFacts.
Import Schema Store PaymentMatching MatchingVocabulary MatchingFacts JSString.
Import EditTable EditFacts StringFacts.

Lemma getEditDistance_cell s1 s2 :
  getEditDistance s1 s2 = cell (rev (chars s1)) (rev (chars s2)).
Proof. apply getEditDistanceChars_cell. Qed.

Lemma getEditDistance_sym s1 s2 : getEditDistance s1 s2 = getEditDistance s2 s1.
Proof. rewrite !getEditDistance_cell. apply cell_sym. Qed.

Lemma getEditDistance_zero s1 s2 : getEditDistance s1 s2 = O <-> s1 = s2.
Proof.
  rewrite getEditDistance_cell, cell_zero. split.
  - intros H. apply chars_inj. rewrite <- (rev_involutive (chars s1)), H.
    apply rev_involutive.
  - now intros ->.
Qed.

Lemma getEditDistance_upper s1 s2 :
  (getEditDistance s1 s2 <= Nat.max (String.length s1) (String.length s2))%nat.
Proof.
  rewrite getEditDistance_cell, <- !length_chars.
  rewrite <- (length_rev (chars s1)), <- (length_rev (chars s2)).
  apply cell_upper.
Qed.

(** The two names as [calculateSimilarity] compares them. *)
Lemma calculateSimilarity_cases str1 str2 :
  let s1 := trim (toLowerCase str1) in
  let s2 := trim (toLowerCase str2) in
  (s1 = s2 /\ calculateSimilarity str1 str2 = 100%Q) \/
  (s1 <> s2 /\
   exists L e,
     L = Nat.max (String.length s1) (String.length s2) /\
     e = levenshtein s1 s2 /\
     (0 < e <= L)%nat /\
     calculateSimilarity str1 str2
       = ((inject_Z (Z.of_nat L - Z.of_nat e) / inject_Z (Z.of_nat L)) * 100)%Q).
Proof.
  cbv zeta. unfold calculateSimilarity.
  set (s1 := trim (toLowerCase str1)). set (s2 := trim (toLowerCase str2)).
  destruct (String.eqb_spec s1 s2) as [E | E]; [now left | right].
  split; [exact E |].
  assert (Hpos : (0 < getEditDistance s1 s2)%nat).
  { destruct (getEditDistance s1 s2) eqn:Hd; [| lia].
    apply getEditDistance_zero in Hd. contradiction. }
  pose proof (getEditDistance_upper s1 s2) as Hup.
  assert (Hlev : getEditDistance s1 s2 = levenshtein s1 s2).
  { rewrite getEditDistance_cell. apply cell_lev. }
  exists (Nat.max (String.length s1) (String.length s2)), (levenshtein s1 s2).
  split; [reflexivity |]. split; [reflexivity |].
  split; [rewrite <- Hlev; lia |].
  destruct (Nat.ltb_spec (String.length s2) (String.length s1)) as [Hlt | Hge].
  - replace (Nat.max (String.length s1) (String.length s2))
      with (String.length s1) by lia.
    destruct (Nat.eqb_spec (String.length s1) 0) as [H0 | _]; [lia |].
    now rewrite Hlev.
  - replace (Nat.max (String.length s1) (String.length s2))
      with (String.length s2) by lia.
    destruct (Nat.eqb_spec (String.length s2) 0) as [H0 | _]; [lia |].
    now rewrite getEditDistance_sym, Hlev.
Qed.

Lemma ratio_range (L e : nat) :
  (0 < e <= L)%nat ->
  (0 <= (inject_Z (Z.of_nat L - Z.of_nat e) / inject_Z (Z.of_nat L)) * 100 < 100)%Q.
Proof.
  intros H.
  assert (HL : (0 < inject_Z (Z.of_nat L))%Q).
  { change 0%Q with (inject_Z 0). rewrite <- Zlt_Qlt. lia. }
  split.
  - apply Qmult_le_0_compat; [| discriminate].
    apply Qle_shift_div_l; [exact HL |].
    rewrite Qmult_0_l. change 0%Q with (inject_Z 0). rewrite <- Zle_Qle. lia.
  - assert (H1 : (inject_Z (Z.of_nat L - Z.of_nat e) / inject_Z (Z.of_nat L) < 1)%Q).
    { apply Qlt_shift_div_r; [exact HL |].
      rewrite Qmult_1_l. rewrite <- Zlt_Qlt. lia. }
    apply (Qmult_lt_compat_r _ _ 100) in H1; [| reflexivity].
    now rewrite Qmult_1_l in H1.
Qed.

(** Two cuts of a list at its first element that passes a test agree. *)
Lemma first_cut_unique {A} (P : A -> Prop) (b b' : list A) x x' a a' :
  (b ++ x :: a)%list = (b' ++ x' :: a')%list ->
  P x -> P x' ->
  (forall u, In u b -> ~ P u) -> (forall u, In u b' -> ~ P u) ->
  b = b' /\ x = x' /\ a = a'.
Proof.
  revert b'. induction b as [| y b IH]; intros [| y' b']; cbn; intros E Px Px' Hb Hb'.
  - now injection E.
  - injection E as -> _. exfalso. apply (Hb' y'); cbn; auto.
  - injection E as -> _. exfalso. apply (Hb x'); cbn; auto.
  - injection E as -> E.
    destruct (IH b' E Px Px') as (-> & -> & ->); auto.
Qed.

Lemma similarity_100_iff str1 str2 :
  (calculateSimilarity str1 str2 == 100)%Q
  <-> trim (toLowerCase str1) = trim (toLowerCase str2).
Proof.
  destruct (calculateSimilarity_cases str1 str2) as [[E H] | (E & L & e & -> & -> & Hr & H)].
  - rewrite H. split; [auto | reflexivity].
  - pose proof (ratio_range _ _ Hr) as [_ H100]. rewrite <- H in H100.
    split; [| intros Heq; contradiction].
    intros Hq. rewrite Hq in H100. discriminate.
Qed.

End SimilarityFacts.

Import PaymentMatching MatchingVocabulary MatchingFacts EditTable EditFacts StringFacts SimilarityFacts.

(** X1.  [getEditDistance] computes the Levenshtein distance of its two
    arguments: the single array [costs] that its two loops update in
    place ends with the value of the Wagner-Fischer recurrence, whose
    three-way minimum the code skips when the two characters agree. *)
Theorem edit_distance_is_levenshtein s1 s2 :
  getEditDistance s1 s2 = levenshtein s1 s2.
Proof. rewrite getEditDistance_cell. apply cell_lev. Qed.

(** X2.  [getEditDistance] is symmetric, it is 0 exactly for equal
    strings, and it lies between the difference of the two lengths and
    the greater of them. *)
Theorem edit_distance_metric s1 s2 :
  getEditDistance s1 s2 = getEditDistance s2 s1 /\
  (getEditDistance s1 s2 = O <-> s1 = s2) /\
  (String.length s1 - String.length s2 <= getEditDistance s1 s2)%nat /\
  (String.length s2 - String.length s1 <= getEditDistance s1 s2)%nat /\
  (getEditDistance s1 s2 <= Nat.max (String.length s1) (String.length s2))%nat.
Proof.
  split; [apply getEditDistance_sym |].
  split; [apply getEditDistance_zero |].
  pose proof (cell_lower (rev (JSString.chars s1)) (rev (JSString.chars s2))) as [H1 H2].
  rewrite !length_rev, !length_chars, <- getEditDistance_cell in H1, H2.
  split; [exact H1 |]. split; [exact H2 |].
  apply getEditDistance_upper.
Qed.

(** X3.  [calculateSimilarity] compares the two names lower-cased and
    trimmed.  For equal names it is 100; otherwise it is
    [(L - e) / L * 100], where [L] is the greater of the two lengths and
    [e] their Levenshtein distance, a value from 0 up to but not
    including 100.  So the similarity is 100 exactly when the two names
    agree up to case and surrounding white space, and the test
    [longer.length === 0] of line 384 never holds. *)
Theorem similarity_closed_form str1 str2 :
  let s1 := JSString.trim (JSString.toLowerCase str1) in
  let s2 := JSString.trim (JSString.toLowerCase str2) in
  let L := Nat.max (String.length s1) (String.length s2) in
  let e := levenshtein s1 s2 in
  (s1 = s2 -> calculateSimilarity str1 str2 = 100%Q) /\
  (s1 <> s2 ->
   L <> O /\
   calculateSimilarity str1 str2
     = ((inject_Z (Z.of_nat L - Z.of_nat e) / inject_Z (Z.of_nat L)) * 100)%Q /\
   (calculateSimilarity str1 str2 < 100)%Q) /\
  (0 <= calculateSimilarity str1 str2 <= 100)%Q /\
  ((calculateSimilarity str1 str2 == 100)%Q <-> s1 = s2).
Proof.
  cbv zeta.
  destruct (calculateSimilarity_cases str1 str2) as [[E H] | (E & L & e & -> & -> & Hr & H)].
  - split; [auto |]. split; [intros Hne; contradiction |].
    rewrite H. split; [split; discriminate |].
    split; [auto | reflexivity].
  - pose proof (ratio_range _ _ Hr) as [H0 H100]. rewrite <- H in H0, H100.
    split; [intros Heq; contradiction |].
    split; [intros _; split; [lia | split; [exact H | exact H100]] |].
    split; [split; [exact H0 | apply Qlt_le_weak, H100] |].
    split; [| intros Heq; contradiction].
    intros Hq. rewrite Hq in H100. discriminate.
Qed.

(** X4.  [calculateSimilarity] is symmetric in its two arguments. *)
Theorem similarity_symmetric str1 str2 :
  calculateSimilarity str1 str2 = calculateSimilarity str2 str1.
Proof.
  pose proof (calculateSimilarity_cases str1 str2) as H12.
  pose proof (calculateSimilarity_cases str2 str1) as H21.
  cbv zeta in H12, H21.
  destruct H12 as [[E H] | (E & L & e & -> & -> & _ & H)];
    destruct H21 as [[E' H'] | (E' & L' & e' & -> & -> & _ & H')];
    try congruence.
  rewrite H, H'. unfold levenshtein.
  rewrite <- !cell_lev, (cell_sym (rev (JSString.chars (JSString.trim (JSString.toLowerCase str2))))).
  now rewrite Nat.max_comm.
Qed.

(** X5.  A payment that no phone number matches and whose payer name
    equals, up to case and surrounding white space, the "first last" name
    of a tenant is matched to the first such tenant of the pool, with
    confidence 100 and the reason "Name match (100% similarity)". *)
Theorem exact_name_match faults d payment before t after :
  faults 0%nat = None ->
  noPhoneMatch (Store.tenants d) payment ->
  let normal s := JSString.trim (JSString.toLowerCase s) in
  let fullName u := (Schema.Tenant.firstName u ++ " " ++ Schema.Tenant.lastName u)%string in
  Store.tenants d = (before ++ t :: after)%list ->
  normal (payerName payment) = normal (fullName t) ->
  (forall u, In u before -> normal (payerName payment) <> normal (fullName u)) ->
  autoMatchPaymentToTenant true faults d payment
  = {| tenantId := Some (Schema.Tenant.id t); invoiceId := None;
       matchStatus := Schema.Matched; matchConfidence := 100;
       matchReason := Some "Name match (100% similarity)" |}.
Proof.
  intros Hf Hno normal fullName Hl Ht Hbefore.
  rewrite autoMatch_reads_pool by exact Hf.
  assert (Hr : matchAgainst (Store.tenants d) payment
               = matchByName payment (Store.tenants d)).
  { unfold matchAgainst.
    destruct (phoneNumber payment) as [phone |] eqn:Hp;
      [| now destruct (JSString.truthy None)].
    destruct (JSString.truthy (Some phone)) eqn:Htr; [| reflexivity].
    rewrite (Hno phone Hp); [reflexivity |]. now apply truthy_some. }
  rewrite Hr.
  assert (Hsim : forall u,
             (similarityTo payment u == 100)%Q
             <-> normal (payerName payment) = normal (fullName u)).
  { intros u. unfold similarityTo.
    pose proof (similarity_100_iff (payerName payment)
                  (JSString.toLowerCase (fullName u))) as H.
    unfold normal. rewrite toLowerCase_idem in H. exact H. }
  destruct (bestNameMatch_tracked payment (Store.tenants d)) as [Hconf Hb].
  cbv zeta in Hb.
  unfold matchByName.
  destruct (bestTenant (bestNameMatch payment (Store.tenants d))) as [t' |].
  2:{ destruct Hb as [_ Hall]. exfalso.
      assert (Hin : In t (Store.tenants d)) by (rewrite Hl; apply in_elt).
      specialize (Hall t Hin). apply Hsim in Ht. rewrite Ht in Hall.
      now apply Hall. }
  destruct Hb as (Hs & H60 & before' & after' & Hl' & Hbefore' & Hafter').
  assert (Ht' : (similarityTo payment t' == 100)%Q).
  { apply Qle_antisym; [apply calculateSimilarity_le_100 |].
    apply Hsim in Ht. rewrite <- Ht.
    assert (Hin : In t (Store.tenants d)) by (rewrite Hl; apply in_elt).
    rewrite Hl' in Hin.
    apply in_app_or in Hin as [Hu | [<- | Hu]];
      [apply Qlt_le_weak, Hbefore', Hu | apply Qle_refl | apply Hafter', Hu]. }
  assert (Hsame : before = before' /\ t = t' /\ after = after').
  { apply (first_cut_unique (fun u => (similarityTo payment u == 100)%Q)).
    - now rewrite <- Hl, <- Hl'.
    - now apply Hsim.
    - exact Ht'.
    - intros u Hu Hq. apply Hsim in Hq. exact (Hbefore u Hu Hq).
    - intros u Hu Hq. specialize (Hbefore' u Hu).
      rewrite Hq, Ht' in Hbefore'. now apply (Qlt_irrefl 100). }
  destruct Hsame as (_ & <- & _).
  assert (Hc : bestConfidence (bestNameMatch payment (Store.tenants d)) = 100).
  { rewrite Hconf, Hs.
    assert (Hround : forall x y, (x == y)%Q -> MathRound x = MathRound y).
    { intros x y Hxy. unfold MathRound.
      apply Z.le_antisymm; apply Qfloor_resp_le; rewrite Hxy; apply Qle_refl. }
    rewrite (Hround _ _ Ht'). apply (MathRound_Z 100). }
  rewrite Hc. reflexivity.
Qed.

(** The payer name of a feed in capitals and with blanks around it. *)
Lemma exact_name_match_witness :
  let p := MatchingSamples.payment "  JOHN doe " None in
  noPhoneMatch MatchingSamples.pool p /\
  autoMatchPaymentToTenant true Store.noFaults MatchingSamples.dbTenants p
  = {| tenantId := Some 1; invoiceId := None;
       matchStatus := Schema.Matched; matchConfidence := 100;
       matchReason := Some "Name match (100% similarity)" |}.
Proof.
  cbv zeta.
  assert (Hno : noPhoneMatch MatchingSamples.pool
                  (MatchingSamples.payment "  JOHN doe " None))
    by (intros phone Hp; discriminate Hp).
  split; [exact Hno |].
  apply (exact_name_match Store.noFaults MatchingSamples.dbTenants
           (MatchingSamples.payment "  JOHN doe " None) []
           (MatchingSamples.tenant 1 "John" "Doe" "0712345678")
           [MatchingSamples.tenant 2 "Jane" "Smith" "+254 798 765 432";
            MatchingSamples.tenant 3 "Janet" "Smith" "0798-765-432"]).
  - reflexivity.
  - exact Hno.
  - reflexivity.
  - vm_compute. reflexivity.
  - intros u [].
Defined.

(** X17.  [normalizePhoneNumber] is idempotent: a phone number that is
    already normalized, as the matcher compares it, normalizes to
    itself.  Its result holds at most nine characters, all digits. *)
Theorem normalizePhoneNumber_idempotent phone :
  normalizePhoneNumber (normalizePhoneNumber phone) = normalizePhoneNumber phone /\
  (String.length (normalizePhoneNumber phone) <= 9)%nat /\
  forallb JSString.isDigit (JSString.chars (normalizePhoneNumber phone)) = true.
Proof.
  destruct (normalizePhoneNumber_digits phone) as (dropped & _ & Hlen & Hall).
  assert (Hd : forallb JSString.isDigit (JSString.chars (normalizePhoneNumber phone)) = true).
  { apply forallb_forall. rewrite Forall_forall in Hall. exact Hall. }
  split; [| split; [rewrite <- length_chars; lia | exact Hd]].
  unfold normalizePhoneNumber at 1.
  assert (Hf : forall l, forallb JSString.isDigit l = true -> filter JSString.isDigit l = l).
  { induction l as [| c l IH]; cbn; [reflexivity |].
    intros H. apply andb_true_iff in H as [Hc Hl]. rewrite Hc. f_equal. auto. }
  rewrite (Hf _ Hd). unfold JSString.sliceLast.
  replace (List.length (JSString.chars (normalizePhoneNumber phone)) - 9)%nat with O by lia.
  cbn [skipn]. apply ofChars_chars.
Qed.

(** X21.  In every result of [autoMatchPaymentToTenant] three things go
    together: the status is matched, a tenant id is given, and the
    confidence is above 70.  An unmatched result names no tenant and has
    a confidence of at most 70. *)
Theorem matched_iff_confident available faults d payment :
  let r := autoMatchPaymentToTenant available faults d payment in
  (matchStatus r = Schema.Matched <-> tenantId r <> None) /\
  (matchStatus r = Schema.Matched <-> 70 < matchConfidence r) /\
  (matchStatus r = Schema.Unmatched ->
   tenantId r = None /\ 0 <= matchConfidence r <= 70).
Proof.
  cbv zeta.
  assert (Hshape : forall r,
             (matchStatus r = Schema.Matched /\ tenantId r <> None /\ 70 < matchConfidence r)
             \/ (matchStatus r = Schema.Unmatched /\ tenantId r = None
                 /\ 0 <= matchConfidence r <= 70) ->
             (matchStatus r = Schema.Matched <-> tenantId r <> None) /\
             (matchStatus r = Schema.Matched <-> 70 < matchConfidence r) /\
             (matchStatus r = Schema.Unmatched ->
              tenantId r = None /\ 0 <= matchConfidence r <= 70)).
  { intros r [(Hs & Ht & Hc) | (Hs & Ht & Hc)]; rewrite Hs.
    - repeat split; auto; discriminate.
    - repeat split; auto; try discriminate; try lia; try congruence. }
  apply Hshape.
  unfold autoMatchPaymentToTenant.
  destruct available; cbn [negb]; [| right; cbn; repeat split; lia].
  unfold Store.run, Store.bind, Store.statement, Store.start, Store.ret, Store.selectTenants.
  cbn [Store.db Store.issued Store.trail].
  destruct (faults 0%nat); cbn [Store.result]; [right; cbn; repeat split; lia |].
  unfold matchAgainst.
  assert (Hname : let m := matchByName payment (Store.tenants d) in
                  (matchStatus m = Schema.Matched /\ tenantId m <> None
                   /\ 70 < matchConfidence m)
                  \/ (matchStatus m = Schema.Unmatched /\ tenantId m = None
                      /\ 0 <= matchConfidence m <= 70)).
  { cbv zeta. unfold matchByName.
    pose proof (bestConfidence_range payment (Store.tenants d)) as Hrange.
    destruct (bestNameMatch_tracked payment (Store.tenants d)) as [_ Hb].
    cbv zeta in Hb.
    destruct (bestTenant (bestNameMatch payment (Store.tenants d))) as [t |].
    - destruct (Z.ltb_spec 70 (bestConfidence (bestNameMatch payment (Store.tenants d)))).
      + left. cbn. repeat split; try discriminate; assumption.
      + right. cbn. repeat split; lia.
    - destruct Hb as [-> _]. right. cbn. repeat split; lia. }
  destruct (JSString.truthy (phoneNumber payment)); [| exact Hname].
  destruct (phoneNumber payment) as [phone |]; [| exact Hname].
  destruct (find _ _) as [t |]; [| exact Hname].
  left. cbn. repeat split; try discriminate; lia.
Qed.

(* ================================================================== *)
(** * Further properties of the feed parser and of parseKES *)
(* ================================================================== *)

Module AmountFacts.
Import JSString JSNumber PaymentMatching FeedVocabulary Currency StringFacts MatchingFacts.

Lemma parseFloatOpt_notAnAmount field : notAnAmount field -> parseFloatOpt field = NaN.
Proof.
  destruct field as [s |]; [| reflexivity].
  unfold notAnAmount, parseFloatOpt, parseFloat, parseFloatChars.
  destruct (chars s) as [| c r]; [reflexivity |].
  unfold cannotStartNumber. rewrite negb_true_iff, !orb_false_iff.
  intros (((((Hd & Hm) & Hp) & Hdot) & HI) & Hw).
  cbn [trimStartChars dropWhile]. rewrite Hw, Hm, Hp.
  unfold parseUnsigned.
  change (chars "Infinity") with ("I"%char :: chars "nfinity").
  cbn [isPrefix]. rewrite Ascii.eqb_sym, HI. cbn [andb].
  cbn [takeWhile dropWhile]. rewrite Hd, Hdot. reflexivity.
Qed.

Lemma collect_none {A B} (f : A -> option B) l :
  (forall x, In x l -> f x = None) -> collect f l = [].
Proof.
  induction l as [| a l IH]; cbn; intros H; [reflexivity |].
  rewrite (H a) by auto. apply IH. auto.
Qed.

Lemma removeKSh_plain l :
  forallb isAmountChar l = true -> removeKSh l = l.
Proof.
  induction l as [| c l IH]; cbn [forallb removeKSh]; [reflexivity |].
  intros H. apply andb_true_iff in H as [Hc Hl].
  destruct (Ascii.eqb_spec c "K") as [-> | _]; [discriminate Hc |].
  now rewrite IH.
Qed.

Lemma removeKSh_prefix pre body :
  forallb isAmountChar pre = true ->
  removeKSh (pre ++ chars "KSh " ++ body) = (pre ++ removeKSh body)%list.
Proof.
  induction pre as [| c pre IH]; cbn [forallb app]; intros H.
  - reflexivity.
  - apply andb_true_iff in H as [Hc Hl].
    cbn [removeKSh].
    destruct (Ascii.eqb_spec c "K") as [-> | _]; [discriminate Hc |].
    now rewrite IH.
Qed.

Lemma isAmountChar_not_space c : isAmountChar c = true -> isWhiteSpace c = false.
Proof. destruct c as [[] [] [] [] [] [] [] []]; cbn; congruence. Qed.

Lemma trimChars_plain l :
  forallb (fun c => negb (isWhiteSpace c)) l = true -> trimChars l = l.
Proof.
  intros H. unfold trimChars.
  assert (Hd : forall l, forallb (fun c => negb (isWhiteSpace c)) l = true ->
                         dropWhile isWhiteSpace l = l).
  { intros [| c r]; cbn; [reflexivity |].
    intros E. apply andb_true_iff in E as [Ec _].
    apply negb_true_iff in Ec. now rewrite Ec. }
  rewrite (Hd l H). rewrite Hd; [apply rev_involutive |].
  apply forallb_forall. intros c Hc. apply in_rev in Hc.
  rewrite forallb_forall in H. now apply H.
Qed.

End AmountFacts.

Import JSString JSNumber PaymentMatching FeedVocabulary Currency StringFacts MatchingFacts.
Import AmountFacts.

(** X18.  The amount decides whether a row of a feed is kept.  A feed
    whose header names no column that contains "amount" yields no
    payment at all, whatever its rows hold; and under an amount column a
    row is dropped when its amount field is missing, empty, or starts
    with a character that cannot start a number, such as a letter other
    than "I" or a quotation mark. *)
Theorem feed_rows_need_an_amount :
  (forall csv headerLine dataLines,
     linesOf csv = headerLine :: dataLines ->
     amountIdx (columnsOf headerLine) = None ->
     parseCSVPayments csv = []) /\
  (forall cols line i,
     amountIdx cols = Some i ->
     notAnAmount (nth_error (partsOf line) i) ->
     parseLine cols line = None).
Proof.
  assert (Hdrop : forall cols line,
             JSNumber.gt (amountOf cols (partsOf line)) JSNumber.zero = false ->
             parseLine cols line = None).
  { intros cols line H. unfold parseLine.
    destruct (_ <? 2)%nat; [reflexivity |]. now rewrite H. }
  split.
  - intros csv headerLine dataLines Hl Hno. unfold parseCSVPayments. rewrite Hl.
    destruct (_ <? 2)%nat; [reflexivity |].
    apply collect_none. intros line _. apply Hdrop.
    unfold amountOf. rewrite Hno. reflexivity.
  - intros cols line i Hi Hf. apply Hdrop.
    unfold amountOf. rewrite Hi, (parseFloatOpt_notAnAmount _ Hf). reflexivity.
Qed.

(** Two feeds of the tests: one without an amount column, one with the
    amount "invalid". *)
Lemma feed_rows_need_an_amount_witness :
  let newline := MatchingSamples.newline in
  parseCSVPayments ("Date,Payer" ++ newline ++ "2025-01-15,John Doe") = [] /\
  parseLine (columnsOf "Date,Amount,Payer Name") "2025-01-15,invalid,John Doe" = None.
Proof.
  cbv zeta. destruct feed_rows_need_an_amount as [Hheader Hrow]. split.
  - apply (Hheader _ "Date,Payer" ["2025-01-15,John Doe"]); vm_compute; reflexivity.
  - apply (Hrow _ _ 1%nat); vm_compute; reflexivity.
Defined.

(** X19.  [parseKES] reads a formatted amount back: for a text made of
    digits, thousands separators, a decimal point and a sign, with or
    without "KSh " in front or after the sign, it returns the number that
    [parseFloat] reads from the text without its commas, and 0 where
    [parseFloat] finds no number; it never returns [NaN]. *)
Theorem parseKES_reads_formatted_amounts sign body :
  forallb isAmountChar (chars sign) = true ->
  forallb isAmountChar (chars body) = true ->
  let plain := ofChars (removeCommas (chars (sign ++ body))) in
  let value := if isNaN (parseFloat plain) then zero else parseFloat plain in
  parseKES (sign ++ body) = value /\
  parseKES (sign ++ "KSh " ++ body) = value /\
  isNaN value = false.
Proof.
  intros Hs Hb. cbv zeta.
  assert (Hall : forallb isAmountChar (chars (sign ++ body)) = true).
  { rewrite chars_append, forallb_app, Hs, Hb. reflexivity. }
  assert (Htrim : forall l, forallb isAmountChar l = true ->
                            trim (ofChars (removeCommas l)) = ofChars (removeCommas l)).
  { intros l Hl. unfold trim. rewrite chars_ofChars. f_equal.
    apply trimChars_plain. apply forallb_forall. intros c Hc.
    unfold removeCommas in Hc. apply filter_In in Hc as [Hc _].
    rewrite forallb_forall in Hl. apply negb_true_iff.
    now apply isAmountChar_not_space, Hl. }
  assert (H1 : parseKES (sign ++ body)
               = if isNaN (parseFloat (ofChars (removeCommas (chars (sign ++ body)))))
                 then zero
                 else parseFloat (ofChars (removeCommas (chars (sign ++ body))))).
  { unfold parseKES. rewrite (removeKSh_plain _ Hall), (Htrim _ Hall). reflexivity. }
  split; [exact H1 |]. split.
  - rewrite <- H1. unfold parseKES.
    rewrite !chars_append, (removeKSh_prefix _ _ Hs), <- chars_append.
    rewrite (removeKSh_plain _ Hb), <- chars_append.
    now rewrite (removeKSh_plain _ Hall).
  - destruct (parseFloat _); reflexivity.
Qed.

Lemma parseKES_reads_formatted_amounts_witness :
  parseKES "KSh 1,000.50" = parseFloat "1000.50" /\
  parseKES "-KSh 50,000.00" = parseFloat "-50000" /\
  parseKES "1,000.50" = parseFloat "1000.5".
Proof.
  destruct (parseKES_reads_formatted_amounts "" "1,000.50" eq_refl eq_refl)
    as (H1 & H2 & _).
  destruct (parseKES_reads_formatted_amounts "-" "50,000.00" eq_refl eq_refl)
    as (_ & H3 & _).
  cbn [append] in H1, H2, H3.
  rewrite H1, H2, H3. repeat split; vm_compute; reflexivity.
Defined.

(* ================================================================== *)
(** * The upload of a payment feed: properties *)
(* ================================================================== *)

Module UploadFacts.
Import Schema Store PaymentMatching PaymentUpload.

Lemma autoMatch_cases faults d payment :
  autoMatchPaymentToTenant true faults d payment = matchAgainst (tenants d) payment \/
  autoMatchPaymentToTenant true faults d payment = noResult.
Proof.
  unfold autoMatchPaymentToTenant, run, bind, statement, start, ret, selectTenants.
  cbn [negb db issued trail Store.issued Store.db Store.trail].
  destruct (faults 0%nat); cbn [result]; auto.
Qed.

(** What the loop has done when it stops: a row for each payment of a
    prefix of the list, all of them when it ends without an error. *)
Lemma uploadLoop_rows faults uploadId payments : forall st st' err,
  uploadLoop faults uploadId payments st = (st', err) ->
  exists rows,
    importedPayments (store st') = (importedPayments (store st) ++ rows)%list /\
    core (store st') = core (store st) /\
    paymentUploads (store st') = paymentUploads (store st) /\
    Forall2 (storedFor uploadId (store st)) (firstn (List.length rows) payments) rows /\
    (List.length rows <= List.length payments)%nat /\
    (err = None ->
     List.length rows = List.length payments /\
     issued st' = (issued st + 2 * List.length payments)%nat /\
     matchedSoFar st' = matchedSoFar st + countMatched rows /\
     matchedSoFar st' + unmatchedSoFar st'
       = matchedSoFar st + unmatchedSoFar st + Z.of_nat (List.length payments)).
Proof.
  induction payments as [| payment rest IH]; intros st st' err; cbn [uploadLoop].
  - intros [= <- <-]. exists []. rewrite app_nil_r. cbn.
    repeat split; auto; try lia; constructor.
  - destruct (faults (S (issued st))) as [msg |] eqn:F.
    + intros [= <- <-]. exists []. rewrite app_nil_r. cbn.
      repeat split; auto; try lia; try discriminate; constructor.
    + intros H. apply IH in H.
      destruct H as (rows & Himp & Hcore & Hup & Hrows & Hlen & Hok).
      cbn [store issued matchedSoFar unmatchedSoFar insertImportedPayment
           importedPayments core paymentUploads] in *.
      set (matchResult := autoMatchPaymentToTenant true _ _ payment) in *.
      set (row := setImportedId (nextImportedPaymentId (store st))
                                (importedRow uploadId payment matchResult)) in *.
      exists (row :: rows).
      split; [now rewrite Himp, <- app_assoc |].
      split; [exact Hcore |]. split; [exact Hup |].
      split.
      { cbn [List.length firstn]. constructor.
        - exists matchResult. split; [apply autoMatch_cases | now eexists].
        - revert Hrows. apply Forall2_impl.
          intros p r (m & Hm & i & ->). exists m. split; [exact Hm | now eexists]. }
      split; [cbn [List.length]; lia |].
      intros He. destruct (Hok He) as (H1 & H2 & H3 & H4).
      cbn [List.length]. split; [lia |]. split; [lia |].
      unfold countMatched in *. cbn [filter].
      change (ImportedPayment.matchStatus row) with (matchStatus matchResult).
      destruct (isMatched (matchStatus matchResult)); cbn [List.length]; lia.
Qed.

End UploadFacts.

Import Schema Store PaymentMatching PaymentUpload UploadFacts.

(** X6.  When [processPaymentUpload] reports success, it has stored one
    row per payment, in the order of the payments and after the rows the
    table held: each row carries the upload id, the fields of its
    payment (the amount printed by [toString]) and the outcome of the
    matcher for it.  The two counts it returns add up to the number of
    payments, the matched count is the number of rows stored as matched,
    and the upload's row holds both counts; the tenants are as before. *)
Theorem upload_success_counts available faults uploadId payments d :
  let r := processPaymentUpload available faults uploadId payments d in
  success (outcome r) = true ->
  exists rows,
    importedPayments (stored r) = (importedPayments d ++ rows)%list /\
    Forall2 (storedFor uploadId d) payments rows /\
    matchedCount (outcome r) + unmatchedCount (outcome r)
      = Z.of_nat (List.length payments) /\
    matchedCount (outcome r) = countMatched rows /\
    error (outcome r) = None /\
    paymentUploads (stored r)
      = map (fun u => if Upload.id u =? uploadId
                      then {| Upload.id := Upload.id u;
                              Upload.matchedCount := matchedCount (outcome r);
                              Upload.unmatchedCount := unmatchedCount (outcome r) |}
                      else u)
            (paymentUploads d) /\
    core (stored r) = core d.
Proof.
  cbv zeta. unfold processPaymentUpload.
  destruct available; cbn [negb]; [| discriminate].
  destruct (uploadLoop _ _ _ _) as [st err] eqn:Hloop.
  apply uploadLoop_rows in Hloop.
  destruct Hloop as (rows & Himp & Hcore & Hup & Hrows & Hlen & Hok).
  cbn [store issued matchedSoFar unmatchedSoFar] in *.
  destruct err as [msg |]; [discriminate |].
  destruct (faults (issued st)); [discriminate |].
  intros _. destruct (Hok eq_refl) as (H1 & H2 & H3 & H4).
  exists rows. cbn [outcome stored success matchedCount unmatchedCount error
                    updateUploadCounts importedPayments paymentUploads core].
  rewrite H1, firstn_all in Hrows.
  rewrite Hup. repeat split; auto; lia.
Qed.

Lemma upload_success_counts_witness :
  let r := processPaymentUpload true noFaults 7 UploadSamples.payments UploadSamples.db in
  success (outcome r) = true /\
  matchedCount (outcome r) = 2 /\ unmatchedCount (outcome r) = 1 /\
  exists rows,
    importedPayments (stored r) = rows /\
    Forall2 (storedFor 7 UploadSamples.db) UploadSamples.payments rows.
Proof.
  cbv zeta.
  assert (H : success (outcome (processPaymentUpload true noFaults 7
                                  UploadSamples.payments UploadSamples.db)) = true)
    by (vm_compute; reflexivity).
  split; [exact H |].
  split; [vm_compute; reflexivity |]. split; [vm_compute; reflexivity |].
  destruct (upload_success_counts true noFaults 7 UploadSamples.payments
              UploadSamples.db H) as (rows & Himp & Hrows & _).
  exists rows. split; [exact Himp | exact Hrows].
Defined.

(** X7.  When [processPaymentUpload] reports a failure, both counts it
    returns are 0 and the upload's row is not updated, but the rows
    inserted before the failing statement stay in the table: the
    payments of some prefix of the list, possibly all of them, each
    stored as on success.  Nothing is rolled back. *)
Theorem upload_failure_keeps_rows available faults uploadId payments d :
  let r := processPaymentUpload available faults uploadId payments d in
  success (outcome r) = false ->
  matchedCount (outcome r) = 0 /\ unmatchedCount (outcome r) = 0 /\
  error (outcome r) <> None /\
  paymentUploads (stored r) = paymentUploads d /\
  core (stored r) = core d /\
  exists rows,
    importedPayments (stored r) = (importedPayments d ++ rows)%list /\
    (List.length rows <= List.length payments)%nat /\
    Forall2 (storedFor uploadId d) (firstn (List.length rows) payments) rows.
Proof.
  cbv zeta. unfold processPaymentUpload.
  destruct available; cbn [negb].
  2:{ intros _. cbn. repeat split; try discriminate.
      exists []. rewrite app_nil_r. cbn. repeat split; [lia | constructor]. }
  destruct (uploadLoop _ _ _ _) as [st err] eqn:Hloop.
  apply uploadLoop_rows in Hloop.
  destruct Hloop as (rows & Himp & Hcore & Hup & Hrows & Hlen & Hok).
  cbn [store issued matchedSoFar unmatchedSoFar] in *.
  assert (Hfail : forall msg,
             let r := {| outcome := failed msg; stored := store st |} in
             matchedCount (outcome r) = 0 /\ unmatchedCount (outcome r) = 0 /\
             error (outcome r) <> None /\
             paymentUploads (stored r) = paymentUploads d /\
             core (stored r) = core d /\
             exists rows,
               importedPayments (stored r) = (importedPayments d ++ rows)%list /\
               (List.length rows <= List.length payments)%nat /\
               Forall2 (storedFor uploadId d) (firstn (List.length rows) payments) rows).
  { intros msg. cbn. repeat split; auto; try discriminate. exists rows. auto. }
  destruct err as [msg |]; [intros _; apply Hfail |].
  destruct (faults (issued st)); [intros _; apply Hfail | discriminate].
Qed.

(** With the sample store failing on the insert of the second payment,
    the call reports no payment at all while the first one is stored. *)
Lemma upload_failure_keeps_rows_witness :
  let r := processPaymentUpload true UploadSamples.secondInsertFails 7
             UploadSamples.payments UploadSamples.db in
  success (outcome r) = false /\
  matchedCount (outcome r) = 0 /\ unmatchedCount (outcome r) = 0 /\
  map ImportedPayment.payerName (importedPayments (stored r)) = ["John Doe"] /\
  map ImportedPayment.matchStatus (importedPayments (stored r)) = [Matched].
Proof.
  cbv zeta.
  assert (H : success (outcome (processPaymentUpload true UploadSamples.secondInsertFails 7
                                  UploadSamples.payments UploadSamples.db)) = false)
    by (vm_compute; reflexivity).
  split; [exact H |].
  destruct (upload_failure_keeps_rows true UploadSamples.secondInsertFails 7
              UploadSamples.payments UploadSamples.db H) as (Hm & Hu & _).
  split; [exact Hm |]. split; [exact Hu |].
  split; vm_compute; reflexivity.
Defined.

(** X8.  A tenant query that fails does not fail the upload: the matcher
    catches the error, and when the insert that follows works the payment
    is stored as unmatched, with confidence 0 and no tenant, whatever the
    tenants of the store are. *)
Theorem upload_survives_failed_lookup faults uploadId payment d msg :
  faults 0%nat = Some msg ->
  faults 1%nat = None -> faults 2%nat = None ->
  let r := processPaymentUpload true faults uploadId [payment] d in
  outcome r = {| success := true; matchedCount := 0; unmatchedCount := 1;
                 error := None |} /\
  importedPayments (stored r)
    = (importedPayments d
       ++ [setImportedId (nextImportedPaymentId d)
                         (importedRow uploadId payment noResult)])%list.
Proof.
  intros F0 F1 F2. cbv zeta.
  unfold processPaymentUpload. cbn [negb uploadLoop issued store Nat.add].
  rewrite F1. cbn [issued]. rewrite F2.
  assert (Hm : autoMatchPaymentToTenant true (fun k => faults k) (core d) payment
               = noResult).
  { unfold autoMatchPaymentToTenant, run, bind, statement, start, ret.
    cbn [negb Store.db Store.issued Store.trail]. rewrite F0. reflexivity. }
  cbn [matchedSoFar unmatchedSoFar store]. rewrite Hm.
  split; reflexivity.
Qed.

Lemma upload_survives_failed_lookup_witness :
  let r := processPaymentUpload true UploadSamples.firstLookupFails 7
             [MatchingSamples.payment "John Doe" None] UploadSamples.db in
  success (outcome r) = true /\
  map ImportedPayment.matchStatus (importedPayments (stored r)) = [Unmatched] /\
  map ImportedPayment.matchConfidence (importedPayments (stored r)) = [0].
Proof.
  cbv zeta.
  destruct (upload_survives_failed_lookup UploadSamples.firstLookupFails 7
              (MatchingSamples.payment "John Doe" None) UploadSamples.db
              "Connection lost" eq_refl eq_refl eq_refl) as [Ho Hi].
  rewrite Ho, Hi. repeat split; reflexivity.
Defined.
